(** * NIPA pollers: the patchwork series poller and the contest results fetcher

    A shallow embedding of [src/pw_poller.py] and
    [src/contest/results-fetcher.py], with the properties of their polling
    loops: the poll window schedule, the retry ledger, the persisted cursor,
    the seen-state rebuild, the fetch loop and the publication of the
    combined view. *)

From Stdlib Require Import ZArith Lia Ascii String.
From stdpp Require Import gmap strings list fin_maps pretty.

Local Open Scope Z_scope.

(** ** Python control flow

    A call either returns or raises.  A raise keeps the state reached when
    the exception left the call: what was mutated before is not undone. *)

Inductive outcome (E A : Type) : Type :=
| Ok (a : A)
| Raise (e : E) (a : A).
Arguments Ok {E A} a.
Arguments Raise {E A} e a.

(** The state an outcome carries. *)
Definition final {E A : Type} (r : outcome E A) : A :=
  match r with
  | Ok a => a
  | Raise _ a => a
  end.

(** [for x in xs: body], left to right, abandoned at the first raise. *)
Fixpoint for_each {E A X : Type} (body : A → X → outcome E A)
    (xs : list X) (a : A) : outcome E A :=
  match xs with
  | [] => Ok a
  | x :: rest =>
      match body a x with
      | Ok a' => for_each body rest a'
      | Raise e a' => Raise e a'
      end
  end.

(** * The patchwork poller, [src/pw_poller.py] *)

Module PwPoller.

(** Naive [datetime] values are counted in microseconds, the resolution of
    the type; [timestamp()] and [fromtimestamp()] are read as the identity
    on them (the state file stores what [prev_big_scan] held). *)
Definition hours (h : Z) : Z := h * 3600 * 1000000.
Definition minutes (m : Z) : Z := m * 60 * 1000000.

Inductive exn :=
| IncompleteSeries            (* raised by process_series *)
| ExternalError               (* anything patchwork, the tester or the file system raises *)
| JSONDecodeError             (* json.load on a damaged poller.state *)
| KeyboardInterrupt.          (* the process is told to stop while it sleeps *)

(** What the external collaborators do with one series of the response. *)
Inductive tester_result := Tested | TesterAlreadyTested | TesterFails.

Record pw_series := {
  id : Z;                     (* pw_series['id'] *)
  loads : bool;               (* PwSeries(self._pw, pw_series) returns *)
  received_all : bool;        (* s['received_all'] *)
  tester : tester_result      (* tree selection, test_series, result files *)
}.

(** One turn of the loop as the outside world presents it. *)
Record poll := {
  req_time : Z;                              (* datetime.utcnow() *)
  answer : Z → option (list pw_series);      (* get_series_all(since=...); None: it raises *)
  interrupted : bool                         (* time.sleep(120) is interrupted *)
}.

(** [self._state], and the file 'poller.state' it is read from and dumped to. *)
Record persisted := { last_poll : Z; seen_series_list : list Z }.

Inductive state_file :=
| Absent
| Damaged
| Stored (file_last_poll : option Z) (file_seen_series : option (list Z)).

Record poller := {
  _state : persisted;
  self_seen_series : gset Z
}.

(** [init_state_from_disk]: every key of the file replaces the default;
    only a missing file is forgiven. *)
Definition init_state_from_disk (st : persisted) (f : state_file)
    : outcome exn persisted :=
  match f with
  | Absent => Ok st
  | Damaged => Raise JSONDecodeError st
  | Stored lp ss =>
      Ok {| last_poll := default (last_poll st) lp;
            seen_series_list := default (seen_series_list st) ss |}
  end.

(** [PwPoller.__init__], as far as the cursor goes; [now] is [utcnow()]. *)
Definition init (now : Z) (f : state_file) : outcome exn poller :=
  let defaults := {| last_poll := now - hours 2; seen_series_list := [] |} in
  match init_state_from_disk defaults f with
  | Ok st => Ok {| _state := st; self_seen_series := list_to_set (seen_series_list st) |}
  | Raise e st => Raise e {| _state := st; self_seen_series := ∅ |}
  end.

(** [process_series], on [self.seen_series]. *)
Definition process_series (seen : gset Z) (s : pw_series) : outcome exn (gset Z) :=
  if bool_decide (id s ∈ seen) then Ok seen
  else if negb (loads s) then Raise ExternalError seen
  else if negb (received_all s) then Raise IncompleteSeries seen
  else match tester s with
       | TesterFails => Raise ExternalError seen
       | Tested | TesterAlreadyTested => Ok ({[id s]} ∪ seen)
       end.

(** The variables of [run] together with [self.seen_series]. *)
Record state := {
  seen_series : gset Z;
  partial_series : gmap Z Z;
  prev_big_scan : Z;
  prev_req_time : Z;
  this_poll_seen : gset Z;
  had_partial_series : bool
}.

Definition setdefault (k : Z) (v : Z) (d : gmap Z Z) : gmap Z Z :=
  match d !! k with
  | Some _ => d
  | None => <[k := v]> d
  end.

(** The body of [for pw_series in json_resp]. *)
Definition observe (st : state) (s : pw_series) : outcome exn state :=
  match process_series (seen_series st) s with
  | Ok seen' =>
      Ok {| seen_series := seen';
            partial_series := partial_series st;
            prev_big_scan := prev_big_scan st;
            prev_req_time := prev_req_time st;
            this_poll_seen := {[id s]} ∪ this_poll_seen st;
            had_partial_series := had_partial_series st |}
  | Raise IncompleteSeries seen' =>
      let d := setdefault (id s) 0 (partial_series st) in
      let n := default 0 (d !! id s) in
      Ok {| seen_series := seen';
            partial_series := <[id s := n + 1]> d;
            prev_big_scan := prev_big_scan st;
            prev_req_time := prev_req_time st;
            this_poll_seen := this_poll_seen st;
            had_partial_series :=
              if bool_decide (n < 5) then true else had_partial_series st |}
  | Raise e seen' =>
      Raise e {| seen_series := seen';
                 partial_series := partial_series st;
                 prev_big_scan := prev_big_scan st;
                 prev_req_time := prev_req_time st;
                 this_poll_seen := this_poll_seen st;
                 had_partial_series := had_partial_series st |}
  end.

(** The choice between the big scan and the normal poll: [(big_scan, since)]. *)
Definition schedule (prev_big prev_req req : Z) : bool * Z :=
  if bool_decide (prev_big + hours 3 < req)
  then (true, prev_big - hours 9)
  else (false, prev_req - minutes 4).

(** What follows the [for] loop: where the cursor goes. *)
Definition advance (big_scan : bool) (req : Z) (st : state) : state :=
  if big_scan then
    {| seen_series := this_poll_seen st;
       partial_series := partial_series st;
       prev_big_scan := req;
       prev_req_time := req;
       this_poll_seen := this_poll_seen st;
       had_partial_series := had_partial_series st |}
  else if had_partial_series st then st
  else
    {| seen_series := seen_series st;
       partial_series := partial_series st;
       prev_big_scan := prev_big_scan st;
       prev_req_time := req;
       this_poll_seen := this_poll_seen st;
       had_partial_series := had_partial_series st |}.

(** [this_poll_seen = set()] at the head of a turn, and
    [had_partial_series = False] once the response is in. *)
Definition begin_poll (st : state) : state :=
  {| seen_series := seen_series st;
     partial_series := partial_series st;
     prev_big_scan := prev_big_scan st;
     prev_req_time := prev_req_time st;
     this_poll_seen := ∅;
     had_partial_series := had_partial_series st |}.

Definition begin_scan (st : state) : state :=
  {| seen_series := seen_series st;
     partial_series := partial_series st;
     prev_big_scan := prev_big_scan st;
     prev_req_time := prev_req_time st;
     this_poll_seen := this_poll_seen st;
     had_partial_series := false |}.

(** One turn of [while True]. *)
Definition cycle (p : poll) (st : state) : outcome exn state :=
  let st0 := begin_poll st in
  let '(big_scan, since) :=
    schedule (prev_big_scan st0) (prev_req_time st0) (req_time p) in
  match answer p since with
  | None => Raise ExternalError st0
  | Some json_resp =>
      match for_each observe json_resp (begin_scan st0) with
      | Raise e st' => Raise e st'
      | Ok st' =>
          let st'' := advance big_scan (req_time p) st' in
          if interrupted p then Raise KeyboardInterrupt st'' else Ok st''
      end
  end.

(** The loop over as many turns as the world presents; [Ok] means it is
    still running after them. *)
Definition loop (ps : list poll) (st : state) : outcome exn state :=
  for_each (λ st p, cycle p st) ps st.

Definition enter_run (start : Z) (self : poller) : state :=
  {| seen_series := self_seen_series self;
     partial_series := ∅;
     prev_big_scan := last_poll (_state self);
     prev_req_time := start;
     this_poll_seen := ∅;
     had_partial_series := false |}.

(** The [finally] block: what is dumped to 'poller.state'. *)
Definition dump_state (st : state) : state_file :=
  Stored (Some (prev_big_scan st)) (Some (elements (seen_series st))).

(** [run]: the state file after the turns [ps]; it is written when an
    exception ends the loop and at no other point. *)
Definition run (start : Z) (ps : list poll) (self : poller) (f : state_file)
    : outcome exn state * state_file :=
  match loop ps (enter_run start self) with
  | Ok st => (Ok st, f)
  | Raise e st => (Raise e st, dump_state st)
  end.

(** The ledger [b] keeps every entry of [a], with a count at least as large. *)
Definition ledger_le (a b : gmap Z Z) : Prop :=
  ∀ i n, a !! i = Some n → ∃ n', b !! i = Some n' ∧ n ≤ n'.

(** ** Sample runs *)

(** Series 7 never receives all its patches; series 8 is complete. *)
Definition stuck : pw_series :=
  {| id := 7; loads := true; received_all := false; tester := Tested |}.

Definition ready : pw_series :=
  {| id := 8; loads := true; received_all := true; tester := Tested |}.

Definition poll_at (t : Z) (resp : list pw_series) : poll :=
  {| req_time := t; answer := λ _, Some resp; interrupted := false |}.

(** A loop whose last big scan and last request were both at time 0. *)
Definition calm : state :=
  {| seen_series := ∅; partial_series := ∅;
     prev_big_scan := 0; prev_req_time := 0;
     this_poll_seen := ∅; had_partial_series := false |}.

(** A poller that starts without a state file, its clock at 0. *)
Definition newborn : poller :=
  {| _state := {| last_poll := 0; seen_series_list := [] |};
     self_seen_series := ∅ |}.

(** Series 7 once all its patches are in. *)
Definition unstuck : pw_series :=
  {| id := 7; loads := true; received_all := true; tester := Tested |}.

(** Six polls two minutes apart, each answered with the stuck series. *)
Definition six_polls : list poll :=
  (λ i, poll_at (minutes (2 * i)) [stuck]) <$> [1; 2; 3; 4; 5; 6].

End PwPoller.

(** * The contest results fetcher, [src/contest/results-fetcher.py] *)

Module ResultsFetcher.

Local Open Scope string_scope.

(** ** JSON as the fetcher meets it

    A field holds [null] ([None]) or a string; an object is a dictionary of
    fields; a document is an object or an array of objects (a manifest, the
    branch feed, the combined view). *)
Inductive json :=
| JList (items : list (gmap string (option string)))
| JObject (fields : gmap string (option string)).

(** [d.get(k)]: a missing key reads as [None]. *)
Definition get (k : string) (d : gmap string (option string)) : option string :=
  default None (d !! k).

(** Python truth of a field: [None] and the empty string are false. *)
Definition truthy (v : option string) : bool :=
  match v with
  | Some (String _ _) => true
  | _ => false
  end.

(** [for x in doc] over a parsed document.  An array yields its objects; an
    object yields its keys, strings, on which the first subscript or [.get]
    raises, so only the empty object gets through. *)
Definition entries (j : json) : option (list (gmap string (option string))) :=
  match j with
  | JList l => Some l
  | JObject o => if bool_decide (o = ∅) then Some [] else None
  end.

(** ** Paths

    A file is named by its directory and its base name, the pair standing
    for [os.path.join(dir, base)]; directories are compared as strings.
    The directories of the sources are there once [build_seen] has made
    them, and hold regular files only. *)
Definition is_sep (c : Ascii.ascii) : bool := Ascii.eqb c "/"%char.

Fixpoint has_sep (s : string) : bool :=
  match s with
  | EmptyString => false
  | String c rest => is_sep c || has_sep rest
  end.

Fixpoint ends_with_sep (s : string) : bool :=
  match s with
  | EmptyString => false
  | String c EmptyString => is_sep c
  | String _ rest => ends_with_sep rest
  end.

Definition starts_with_sep (s : string) : bool :=
  match s with
  | String c _ => is_sep c
  | EmptyString => false
  end.

(** [os.path.basename]: what follows the last separator. *)
Fixpoint basename (p : string) : string :=
  match p with
  | EmptyString => EmptyString
  | String c rest =>
      if has_sep rest then basename rest
      else if is_sep c then rest
      else p
  end.

Global Arguments basename : simpl never.

(** [os.path.join] of two components. *)
Definition path_join (a b : string) : string :=
  if starts_with_sep b then b
  else if bool_decide (a = "") || ends_with_sep a then a +:+ b
  else a +:+ "/" +:+ b.

Global Arguments path_join : simpl never.

(** What [os.path.join(d, b)] names, for a base name [b] and a directory
    [d] that is there: an entry of [d]; or a directory, [d] itself for the
    empty name and ".", the one above for ".."; or nothing at all, the
    join of two empty strings being the empty path. *)
Inductive target :=
| Entry
| Directory
| Nowhere.

Definition target_of (d b : string) : target :=
  if bool_decide (b = "") then
    if bool_decide (d = "") then Nowhere else Directory
  else if bool_decide (b = ".") || bool_decide (b = "..") then Directory
  else Entry.

(** ** The file system and the network *)

(** A file opened for writing holds nothing a reader can parse until the
    dump is through. *)
Inductive file :=
| Whole (doc : json)
| Torn.

(** What [requests.get(url)] followed by [decode('utf-8')] and [json.loads]
    comes to. *)
Inductive body :=
| Undecodable                 (* not UTF-8: UnicodeDecodeError *)
| Malformed                   (* not JSON: json.decoder.JSONDecodeError *)
| Parsed (doc : json).

Inductive reply :=
| Unreachable                 (* requests.get raises *)
| Reply (b : body).

Inductive exn :=
| ConnectionError
| UnicodeDecodeError
| JSONDecodeError
| KeyError
| TypeError
| AttributeError
| ValueError
| IsADirectoryError
| FileNotFoundError.

(** [os.path.exists(os.path.join(d, b))] *)
Definition path_exists (fs : gmap (string * string) file) (d b : string) : bool :=
  match target_of d b with
  | Entry => bool_decide (is_Some (fs !! (d, b)))
  | Directory => true
  | Nowhere => false
  end.

(** The three steps a write is made of. *)
Definition fs_open_w (p : string * string) (fs : gmap (string * string) file)
    : gmap (string * string) file := <[p := Torn]> fs.

Definition fs_dump (p : string * string) (data : json)
    (fs : gmap (string * string) file) : gmap (string * string) file :=
  <[p := Whole data]> fs.

Definition fs_rename (src dst : string * string)
    (fs : gmap (string * string) file) : gmap (string * string) file :=
  match fs !! src with
  | Some f => <[dst := f]> (delete src fs)
  | None => fs
  end.

(** [with open(p, 'w') as fp: json.dump(data, fp)] *)
Definition write_json (p : string * string) (data : json)
    (fs : gmap (string * string) file) : gmap (string * string) file :=
  fs_dump p data (fs_open_w p fs).

(** [write_json_atomic]: the file system after each of its steps, the last
    being the one it leaves. *)
Definition tmp_path (p : string * string) : string * string :=
  (p.1, p.2 +:+ ".new").

Definition write_json_atomic_steps (p : string * string) (data : json)
    (fs : gmap (string * string) file) : list (gmap (string * string) file) :=
  let fs1 := fs_open_w (tmp_path p) fs in
  let fs2 := fs_dump (tmp_path p) data fs1 in
  let fs3 := fs_rename (tmp_path p) p fs2 in
  [fs1; fs2; fs3].

Definition write_json_atomic (p : string * string) (data : json)
    (fs : gmap (string * string) file) : gmap (string * string) file :=
  fs_rename (tmp_path p) p (write_json (tmp_path p) data fs).

(** ** Configuration and state *)

Record config := {
  output_dir : string;        (* [output] dir *)
  url_pfx : string;           (* [output] url_pfx *)
  combined : string;          (* [output] combined *)
  branch_url : string         (* [input] branch_url *)
}.

(** An element of the remote_db file. *)
Record remote := {
  name : string;
  url : string
}.

(** [seen[name]]; the key 'url' is [served]. *)
Record remote_state := {
  seen : gset (option string);
  wip : gset (option string);
  dir : string;
  served : string
}.

(** What the loop logs of itself, for the statements below: every entry
    into [fetch_remote_run], and every combined view written out. *)
Inductive event :=
| FetchRun (into : string) (run : gmap string (option string))
| Published (view : json).

(** [fetcher.fetched], the [seen] of [main], the disk, and the log. *)
Record world := {
  fetched : bool;
  main_seen : gmap string remote_state;
  files : gmap (string * string) file;
  log : list event
}.

Definition set_fetched (b : bool) (w : world) : world :=
  {| fetched := b; main_seen := main_seen w; files := files w; log := log w |}.

Definition set_seen (s : gmap string remote_state) (w : world) : world :=
  {| fetched := fetched w; main_seen := s; files := files w; log := log w |}.

Definition set_files (fs : gmap (string * string) file) (w : world) : world :=
  {| fetched := fetched w; main_seen := main_seen w; files := fs; log := log w |}.

Definition emit (e : event) (w : world) : world :=
  {| fetched := fetched w; main_seen := main_seen w; files := files w;
     log := (log w ++ [e])%list |}.

(** [FetcherState()], over the disk the process finds; [seen] is not bound
    yet. *)
Definition start (fs : gmap (string * string) file) : world :=
  {| fetched := true; main_seen := ∅; files := fs; log := [] |}.

(** ** The fetch *)

Definition fetch_remote_run (net : string → reply)
    (run_info : gmap string (option string)) (u : string)
    (remote_state : remote_state) (w : world) : outcome exn world :=
  let w := emit (FetchRun (dir remote_state) run_info) w in
  match net u with
  | Unreachable => Raise ConnectionError w
  | Reply Undecodable => Raise UnicodeDecodeError w
  | Reply Malformed => Raise JSONDecodeError w
  | Reply (Parsed data) =>
      match target_of (dir remote_state) (basename u) with
      | Entry =>
          Ok (set_files
                (write_json (dir remote_state, basename u) data (files w)) w)
      | Directory => Raise IsADirectoryError w     (* open(file, "w") *)
      | Nowhere => Raise FileNotFoundError w
      end
  end.

(** The body of [for run in manifest]. *)
Definition fetch_run (net : string → reply) (remote_state : remote_state)
    (w : world) (run : gmap string (option string)) : outcome exn world :=
  match run !! "branch" with
  | None => Raise KeyError w
  | Some b =>
      if bool_decide (b ∈ seen remote_state) then Ok w
      else
        match run !! "url" with
        | None => Raise KeyError w
        | Some (Some (String c u)) =>
            match fetch_remote_run net run (String c u) remote_state w with
            | Ok w' => Ok (set_fetched true w')
            | Raise e w' => Raise e w'
            end
        | Some _ =>           (* Executor has not finished, yet *)
            Ok (set_fetched (fetched w || bool_decide (b ∉ wip remote_state)) w)
        end
  end.

Definition fetch_remote (net : string → reply) (r : remote) (w : world)
    : outcome exn world :=
  match net (url r) with
  | Unreachable => Raise ConnectionError w
  | Reply Undecodable => Raise UnicodeDecodeError w
  | Reply Malformed => Ok w
  | Reply (Parsed manifest) =>
      match main_seen w !! name r with
      | None => Raise KeyError w
      | Some remote_state =>
          match entries manifest with
          | None => Raise TypeError w
          | Some runs =>
              match for_each (fetch_run net remote_state) runs w with
              | Ok w' =>
                  Ok (set_files
                        (write_json (dir remote_state, "results.json") manifest
                           (files w')) w')
              | Raise e w' => Raise e w'
              end
          end
      end
  end.

(** ** The rebuild of the seen state *)

(** The body of [for entry in results]. *)
Definition build_seen_entry (fs : gmap (string * string) file)
    (rs : remote_state) (entry : gmap string (option string)) : remote_state :=
  match get "url" entry with
  | Some (String c u) =>
      if path_exists fs (dir rs) (basename (String c u)) then
        {| seen := {[get "branch" entry]} ∪ seen rs; wip := wip rs;
           dir := dir rs; served := served rs |}
      else rs
  | _ =>
      {| seen := seen rs; wip := {[get "branch" entry]} ∪ wip rs;
         dir := dir rs; served := served rs |}
  end.

(** The body of [for remote in remote_db].  [os.makedirs(dir, exist_ok=True)]
    is taken to return: from there on the directory of the source is there,
    which is what [path_exists] supposes of it. *)
Definition build_seen_remote (cfg : config) (fs : gmap (string * string) file)
    (sn : gmap string remote_state) (r : remote)
    : outcome exn (gmap string remote_state) :=
  let d := path_join (output_dir cfg) (name r) in
  let fresh :=
    {| seen := ∅; wip := ∅; dir := d; served := url_pfx cfg +:+ "/" +:+ name r |} in
  let sn := <[name r := fresh]> sn in
  match fs !! (d, "results.json") with
  | None => Ok sn
  | Some Torn => Raise JSONDecodeError sn
  | Some (Whole results) =>
      match entries results with
      | None => Raise AttributeError sn
      | Some es => Ok (<[name r := foldl (build_seen_entry fs) fresh es]> sn)
      end
  end.

Definition build_seen (cfg : config) (remote_db : list remote)
    (fs : gmap (string * string) file) : outcome exn (gmap string remote_state) :=
  for_each (build_seen_remote cfg fs) remote_db ∅.

(** ** The combined view *)

(** What the fetcher uses of [datetime]: [fromisoformat] ([None]: it raises
    ValueError) and [str]; a [datetime] is counted in microseconds. *)
Record datetime_lib := {
  fromisoformat : string → option Z;
  datetime_str : Z → string
}.

(** [timedelta(hours=2, minutes=58)] *)
Definition nominal_duration : Z := ((2 * 3600 + 58 * 60) * 1000000)%Z.

(** [branch_info[br['branch']] = br] for every branch of the feed. *)
Definition index_branch (info : gmap (option string) (gmap string (option string)))
    (br : gmap string (option string))
    : outcome exn (gmap (option string) (gmap string (option string))) :=
  match br !! "branch" with
  | None => Raise KeyError info
  | Some b => Ok (<[b := br]> info)
  end.

(** The body of [for entry in results] in [build_combined]. *)
Definition combine_entry (lib : datetime_lib)
    (fs : gmap (string * string) file)
    (branch_info : gmap (option string) (gmap string (option string)))
    (d nm : string) (acc : list (gmap string (option string)))
    (entry : gmap string (option string))
    : outcome exn (list (gmap string (option string))) :=
  match entry !! "url" with
  | None => Raise KeyError acc
  | Some (Some (String c u)) =>
      match target_of d (basename (String c u)) with
      | Nowhere => Ok acc                                   (* 'No file' *)
      | Directory => Raise IsADirectoryError acc            (* open(file, "r") *)
      | Entry =>
          match fs !! (d, basename (String c u)) with
          | None => Ok acc                                  (* 'No file' *)
          | Some Torn => Raise JSONDecodeError acc
          | Some (Whole (JList _)) => Raise TypeError acc   (* data['remote'] on a list *)
          | Some (Whole (JObject data)) =>
              Ok (acc ++ [<["remote" := Some nm]> data])%list
          end
      end
  | Some _ =>                                           (* Executor is running *)
      match entry !! "branch" with
      | None => Raise KeyError acc
      | Some b =>
          match branch_info !! b with
          | None => Ok acc
          | Some br =>
              match br !! "date" with
              | None => Raise KeyError acc
              | Some None => Raise TypeError acc
              | Some (Some date) =>
                  match fromisoformat lib date with
                  | None => Raise ValueError acc
                  | Some when =>
                      let data := <["start" := Some (datetime_str lib when)]> entry in
                      let when := (when + nominal_duration)%Z in
                      let data := <["end" := Some (datetime_str lib when)]> data in
                      let data := <["results" := None]> data in
                      Ok (acc ++ [<["remote" := Some nm]> data])%list
                  end
              end
          end
      end
  end.

(** The body of [for remote in remote_db] in [build_combined]. *)
Definition combine_remote (lib : datetime_lib) (cfg : config)
    (fs : gmap (string * string) file)
    (branch_info : gmap (option string) (gmap string (option string)))
    (acc : list (gmap string (option string))) (r : remote)
    : outcome exn (list (gmap string (option string))) :=
  let d := path_join (output_dir cfg) (name r) in
  match fs !! (d, "results.json") with
  | None => Ok acc
  | Some Torn => Raise JSONDecodeError acc
  | Some (Whole results) =>
      match entries results with
      | None => Raise TypeError acc
      | Some es => for_each (combine_entry lib fs branch_info d (name r)) es acc
      end
  end.

Definition build_combined (lib : datetime_lib) (cfg : config)
    (net : string → reply) (remote_db : list remote)
    (fs : gmap (string * string) file)
    : outcome exn (list (gmap string (option string))) :=
  match net (branch_url cfg) with
  | Unreachable => Raise ConnectionError []
  | Reply Undecodable => Raise UnicodeDecodeError []
  | Reply Malformed => Raise JSONDecodeError []
  | Reply (Parsed branches) =>
      match entries branches with
      | None => Raise TypeError []
      | Some brs =>
          match for_each index_branch brs ∅ with
          | Raise e _ => Raise e []
          | Ok branch_info =>
              for_each (combine_remote lib cfg fs branch_info) remote_db []
          end
      end
  end.

(** ** The loop of [main] *)

(** [if fetcher.fetched: seen = build_seen(...); fetcher.fetched = False] *)
Definition rebuild (cfg : config) (remote_db : list remote) (w : world)
    : outcome exn world :=
  if fetched w then
    match build_seen cfg remote_db (files w) with
    | Ok sn => Ok (set_fetched false (set_seen sn w))
    | Raise e _ => Raise e w
    end
  else Ok w.

(** [for remote in remote_db: fetch_remote(fetcher, remote, seen)] *)
Definition fetch_all (net : string → reply) (remote_db : list remote)
    (w : world) : outcome exn world :=
  for_each (λ w r, fetch_remote net r w) remote_db w.

(** The published path, [os.path.join(output dir, combined)]. *)
Definition combined_path (cfg : config) : string * string :=
  (output_dir cfg, combined cfg).

(** [if fetcher.fetched: ... write_json_atomic(combined, results)] *)
Definition publish (lib : datetime_lib) (cfg : config) (net : string → reply)
    (remote_db : list remote) (w : world) : outcome exn world :=
  if fetched w then
    match build_combined lib cfg net remote_db (files w) with
    | Raise e _ => Raise e w
    | Ok results =>
        Ok (emit (Published (JList results))
              (set_files
                 (write_json_atomic (combined_path cfg) (JList results) (files w))
                 w))
    end
  else Ok w.

(** The disk after each file-system step of that publication, from the
    world [w] the fetch left: the steps of [write_json_atomic] on the
    combined view, none when nothing is published. *)
Definition publish_steps (lib : datetime_lib) (cfg : config)
    (net : string → reply) (remote_db : list remote) (w : world)
    : list (gmap (string * string) file) :=
  if fetched w then
    match build_combined lib cfg net remote_db (files w) with
    | Raise _ _ => []
    | Ok results =>
        write_json_atomic_steps (combined_path cfg) (JList results) (files w)
    end
  else [].

(** One turn of [while True], up to the sleep; [net] is the network as it
    answers during this turn. *)
Definition cycle (lib : datetime_lib) (cfg : config) (remote_db : list remote)
    (net : string → reply) (w : world) : outcome exn world :=
  match rebuild cfg remote_db w with
  | Raise e w1 => Raise e w1
  | Ok w1 =>
      match fetch_all net remote_db w1 with
      | Raise e w2 => Raise e w2
      | Ok w2 => publish lib cfg net remote_db w2
      end
  end.

(** The states the process goes through: it starts over whatever disk it
    finds, and every turn that completes leads to the next. *)
Inductive reachable (lib : datetime_lib) (cfg : config) (remote_db : list remote)
    : world → Prop :=
| reach_start (fs : gmap (string * string) file) :
    reachable lib cfg remote_db (start fs)
| reach_cycle (net : string → reply) (w w' : world) :
    reachable lib cfg remote_db w →
    cycle lib cfg remote_db net w = Ok w' →
    reachable lib cfg remote_db w'.

(** ** What the disk says of a source directory *)

(** The entries of the snapshot file of directory [d]; none without one. *)
Definition snapshot (fs : gmap (string * string) file) (d : string)
    : list (gmap string (option string)) :=
  match fs !! (d, "results.json") with
  | Some (Whole results) => default [] (entries results)
  | _ => []
  end.

(** The entry names an artifact and the path of that name in [d] exists. *)
Definition has_artifact (fs : gmap (string * string) file) (d : string)
    (e : gmap string (option string)) : Prop :=
  ∃ c u, get "url" e = Some (String c u) ∧
         path_exists fs d (basename (String c u)) = true.

(** The snapshot of [d] lists key [k] with an artifact that is there. *)
Definition complete_in (fs : gmap (string * string) file) (d : string)
    (k : option string) : Prop :=
  ∃ e, e ∈ snapshot fs d ∧ get "branch" e = k ∧ has_artifact fs d e.

(** The snapshot of [d] lists key [k] without an artifact reference. *)
Definition pending_in (fs : gmap (string * string) file) (d : string)
    (k : option string) : Prop :=
  ∃ e, e ∈ snapshot fs d ∧ get "branch" e = k ∧ truthy (get "url" e) = false.

(** The seen state [sn] is what a rebuild over the disk [fs] gives. *)
Definition rebuilt (cfg : config) (fs : gmap (string * string) file)
    (sn : gmap string remote_state) : Prop :=
  ∀ n rs, sn !! n = Some rs →
    dir rs = path_join (output_dir cfg) n ∧
    (∀ k, k ∈ seen rs ↔ complete_in fs (dir rs) k) ∧
    (∀ k, k ∈ wip rs ↔ pending_in fs (dir rs) k).

(** A run of the manifest is news for the seen state [rs]: its key is not
    complete, and it brings an artifact or was not in progress either. *)
Definition news (rs : remote_state) (run : gmap string (option string)) : Prop :=
  ∃ b, run !! "branch" = Some b ∧ (b ∉ seen rs) ∧
       (truthy (get "url" run) = true ∨ b ∉ wip rs).

(** The source [r] signals new data: its manifest holds news. *)
Definition signals (net : string → reply) (sn : gmap string remote_state)
    (r : remote) : Prop :=
  ∃ manifest runs rs run,
    net (url r) = Reply (Parsed manifest) ∧ entries manifest = Some runs ∧
    sn !! name r = Some rs ∧ run ∈ runs ∧ news rs run.

(** An entry into [fetch_remote_run] for a key that the seen state [sn]
    does not hold complete. *)
Definition fresh_fetch (sn : gmap string remote_state) (ev : event) : Prop :=
  ∃ n rs run b, sn !! n = Some rs ∧ ev = FetchRun (dir rs) run ∧
                run !! "branch" = Some b ∧ b ∉ seen rs.

(** What fetching under the seen state [sn] may do to the world: the seen
    state stays, the log grows by fetches of keys that are not complete,
    files appear or change in the directories of [sn] only, and the dirty
    flag is not cleared. *)
Definition fetch_effect (sn : gmap string remote_state) (w w' : world) : Prop :=
  main_seen w' = main_seen w ∧
  (∃ new, log w' = (log w ++ new)%list ∧ Forall (fresh_fetch sn) new) ∧
  (∀ p, files w' !! p = files w !! p ∨
        ((∃ n rs, sn !! n = Some rs ∧ p.1 = dir rs) ∧ is_Some (files w' !! p))) ∧
  (fetched w = true → fetched w' = true).

(** The seen state of [w] is in step with its disk: it was rebuilt over a
    disk [fs0] and no key is complete on the disk of [w] that was not
    complete on [fs0]. *)
Definition in_step (cfg : config) (w : world) : Prop :=
  ∃ fs0, rebuilt cfg fs0 (main_seen w) ∧
         ∀ d k, complete_in (files w) d k → complete_in fs0 d k.

(** A rebuild is due, or the seen state is in step. *)
Definition tracked (cfg : config) (w : world) : Prop :=
  fetched w = true ∨ in_step cfg w.

(** The event is a call of [fetch_remote_run] for key [k] into directory [d]. *)
Definition fetches_key (d : string) (k : option string) (ev : event) : Prop :=
  ∃ run, ev = FetchRun d run ∧ run !! "branch" = Some k.





(** The events logged after the first [n]. *)
Definition since (n : nat) (l : list event) : list event := drop n l.

(** ** Sample data: one source, one branch *)

Definition sample_lib : datetime_lib :=
  {| fromisoformat := λ _, Some 0%Z; datetime_str := λ _, "2024-01-01 00:00:00" |}.

Definition sample_cfg : config :=
  {| output_dir := "out"; url_pfx := "contest"; combined := "all-results.json";
     branch_url := "http://nipa/branches.json" |}.

Definition source_a : remote := {| name := "a"; url := "http://a/results.json" |}.
Definition source_b : remote := {| name := "b"; url := "http://b/results.json" |}.

(** Branch br1 with its artifact, then the same branch and a new one without. *)
Definition run_done : gmap string (option string) :=
  <["branch" := Some "br1"]> (<["url" := Some "http://a/run1.json"]> ∅).
Definition run_other : gmap string (option string) :=
  <["branch" := Some "br2"]> (<["url" := None]> ∅).

Definition artifact : json := JObject (<["results" := Some "pass"]> ∅).

(** The executor of [source_a] reports br1 as done. *)
Definition net_done (u : string) : reply :=
  if String.eqb u "http://a/results.json" then Reply (Parsed (JList [run_done]))
  else if String.eqb u "http://a/run1.json" then Reply (Parsed artifact)
  else if String.eqb u "http://nipa/branches.json" then Reply (Parsed (JList []))
  else Unreachable.


(** [source_a] answers with something that is not JSON; [source_b] is fine. *)
Definition net_garbled (u : string) : reply :=
  if String.eqb u "http://a/results.json" then Reply Malformed
  else if String.eqb u "http://b/results.json" then Reply (Parsed (JList []))
  else Unreachable.

(** [source_a] cannot be reached; [source_b] is fine. *)
Definition net_down (u : string) : reply :=
  if String.eqb u "http://a/results.json" then Unreachable
  else Reply (Parsed (JList [])).

(** The executor of [source_a] reports br1 as done and the branch feed
    cannot be reached. *)
Definition net_no_feed (u : string) : reply :=
  if String.eqb u "http://a/results.json" then Reply (Parsed (JList [run_done]))
  else if String.eqb u "http://a/run1.json" then Reply (Parsed artifact)
  else Unreachable.

(** The world after the first turn of a process that found an empty disk
    and saw br1 done. *)
Definition after_first_turn : world :=
  final (cycle sample_lib sample_cfg [source_a] net_done (start ∅)).



(** A disk whose snapshot lists br1 with an artifact that is not there. *)
Definition disk_dangling : gmap (string * string) file :=
  {[ ("out/a", "results.json") := Whole (JList [run_done]) ]}.

(** A snapshot entry whose artifact reference ends in a separator, and a
    disk whose snapshot lists it: its base name is empty. *)
Definition run_slash : gmap string (option string) :=
  <["branch" := Some "br3"]> (<["url" := Some "http://a/runs/"]> ∅).

Definition disk_slash : gmap (string * string) file :=
  {[ ("out/a", "results.json") := Whole (JList [run_slash]) ]}.

(** The executor of [source_a] reports br3 with that reference, which
    answers with an artifact. *)
Definition net_slash (u : string) : reply :=
  if String.eqb u "http://a/results.json" then Reply (Parsed (JList [run_slash]))
  else if String.eqb u "http://a/runs/" then Reply (Parsed artifact)
  else Unreachable.

(** The seen state of [source_a] before anything is known of it. *)
Definition state_a_blank : remote_state :=
  {| seen := ∅; wip := ∅; dir := "out/a"; served := "contest/a" |}.

(** A disk whose snapshot lists br1 with its artifact in place. *)
Definition disk_done : gmap (string * string) file :=
  <[("out/a", "run1.json") := Whole artifact]> disk_dangling.

(** ** More of what the disk and a manifest say *)

(** The snapshot file of directory [d] can be read by a rebuild: there is
    none, or it holds a document the rebuild can go through. *)
Definition readable (fs : gmap (string * string) file) (d : string) : Prop :=
  match fs !! (d, "results.json") with
  | None => True
  | Some Torn => False
  | Some (Whole results) => is_Some (entries results)
  end.


(** The disk holds what the sources say: for every source the manifest it
    answers with is the snapshot on disk, and each of its runs has its key
    and either its artifact on disk or an empty artifact reference. *)
Definition settled (cfg : config) (remote_db : list remote)
    (net : string → reply) (fs : gmap (string * string) file) : Prop :=
  ∀ r, r ∈ remote_db →
    ∃ manifest runs,
      net (url r) = Reply (Parsed manifest) ∧
      fs !! (path_join (output_dir cfg) (name r), "results.json")
        = Some (Whole manifest) ∧
      entries manifest = Some runs ∧
      ∀ run, run ∈ runs →
        is_Some (run !! "branch") ∧
        (has_artifact fs (path_join (output_dir cfg) (name r)) run ∨
         (is_Some (run !! "url") ∧ truthy (get "url" run) = false)).

(** The record [build_combined] makes of a snapshot entry whose artifact
    [data] is on disk: the artifact with the name of its source. *)
Definition loaded_from (fs : gmap (string * string) file) (d nm : string)
    (e rec : gmap string (option string)) : Prop :=
  ∃ c u data,
    e !! "url" = Some (Some (String c u)) ∧
    fs !! (d, basename (String c u)) = Some (Whole (JObject data)) ∧
    rec = <["remote" := Some nm]> data.

(** The record it makes of an entry without artifact whose branch the feed
    [brs] knows: the entry with a start, an end one nominal duration later,
    no results, and the name of its source. *)
Definition provisional_from (lib : datetime_lib)
    (brs : list (gmap string (option string))) (nm : string)
    (e rec : gmap string (option string)) : Prop :=
  ∃ b br date when,
    truthy (get "url" e) = false ∧
    e !! "branch" = Some b ∧ br ∈ brs ∧ br !! "branch" = Some b ∧
    br !! "date" = Some (Some date) ∧ fromisoformat lib date = Some when ∧
    rec = <["remote" := Some nm]>
            (<["results" := None]>
               (<["end" := Some (datetime_str lib (when + nominal_duration)%Z)]>
                  (<["start" := Some (datetime_str lib when)]> e))).

(** ** More sample data: a running branch the feed knows *)

(** The branch feed lists br2 with its date. *)
Definition feed_entry : gmap string (option string) :=
  <["branch" := Some "br2"]> (<["date" := Some "2024-01-01T00:00:00"]> ∅).

Definition net_feed (u : string) : reply :=
  if String.eqb u "http://nipa/branches.json" then Reply (Parsed (JList [feed_entry]))
  else Unreachable.

(** A disk whose snapshot lists br1 done, its artifact in place, and br2
    running. *)
Definition disk_mixed : gmap (string * string) file :=
  <[("out/a", "results.json") := Whole (JList [run_done; run_other])]> disk_done.

Definition sample_view : list (gmap string (option string)) :=
  final (build_combined sample_lib sample_cfg net_feed [source_a] disk_mixed).

End ResultsFetcher.

(** * Tree selection, [PwPoller.series_determine_tree] and
      [PwPoller.write_tree_selection_result] in [src/pw_poller.py] *)

Module TreeSelection.

Local Open Scope string_scope.

(** ** Which tree a series is for *)

(** What [netdev] and the trees answer about a series. *)
Record verdicts := {
  series_tree_name_direct : option string;   (* netdev.series_tree_name_direct(s) *)
  series_tree_name_should_be_local : bool;   (* netdev.series_tree_name_should_be_local(s) *)
  series_ignore_missing_tree_name : bool;    (* netdev.series_ignore_missing_tree_name(s) *)
  series_is_a_fix_for_net : bool;            (* netdev.series_is_a_fix_for(s, self._trees["net"]) *)
  net_next_check_applies : bool              (* self._trees["net-next"].check_applies(s) *)
}.

(** The attributes [series_determine_tree] sets on the series. *)
Record marks := {
  tree_name : option string;
  tree_mark_expected : option bool;          (* True, False or None *)
  tree_marked : bool
}.

(** Python truth of a tree name: [None] and the empty string are false. *)
Definition named (t : option string) : bool :=
  match t with
  | Some (String _ _) => true
  | _ => false
  end.

(** What an f-string makes of a tree name. *)
Definition format_name (t : option string) : string := default "None" t.

(** [series_determine_tree]: the marks and the comment returned. *)
Definition series_determine_tree (v : verdicts) : marks * string :=
  let direct := series_tree_name_direct v in
  if named direct then
    ({| tree_name := direct; tree_mark_expected := Some true;
        tree_marked := true |},
     "Clearly marked for " +:+ format_name direct)
  else if negb (series_tree_name_should_be_local v) then
    ({| tree_name := direct; tree_mark_expected := Some false;
        tree_marked := false |},
     "Not a local patch")
  else if series_ignore_missing_tree_name v then
    ({| tree_name := direct; tree_mark_expected := None;
        tree_marked := false |},
     "Series ignored based on subject")
  else
    let guessed :=
      if series_is_a_fix_for_net v then Some "net"
      else if net_next_check_applies v then Some "net-next"
      else direct in
    ({| tree_name := guessed; tree_mark_expected := Some true;
        tree_marked := false |},
     if named guessed
     then "Guessed tree name to be " +:+ format_name guessed
     else "Guessing tree name failed - patch did not apply").

(** The keys of [self._trees]. *)
Definition trees : list string := ["net-next"; "net"].

(** What [process_series] does next: [test_series] on a tree of
    [self._trees], nothing, or a KeyError when the name is not a key. *)
Inductive testing :=
| TestsOn (tree : string)
| NoTest
| UnknownTree (name : string).

Definition select_test (m : marks) : testing :=
  match tree_name m with
  | Some (String c t) =>
      if bool_decide (String c t ∈ trees) then TestsOn (String c t)
      else UnknownTree (String c t)
  | _ => NoTest
  end.

(** ** The result files of the tree selection *)

(** A path is the list of its components, the innermost first, so that
    [os.path.join(p, c)] is [c :: p]; the empty path is the directory the
    paths are counted from, which is there. *)
Inductive node :=
| Dir
| File (content : string).

Inductive os_error :=
| FileExistsError
| FileNotFoundError
| NotADirectoryError
| IsADirectoryError.

Definition node_at (fs : gmap (list string) node) (p : list string) : option node :=
  match p with
  | [] => Some Dir
  | _ => fs !! p
  end.

(** [os.path.exists] *)
Definition exists_path (fs : gmap (list string) node) (p : list string) : bool :=
  bool_decide (is_Some (node_at fs p)).

(** What creating or writing the entry [c] of [parent] asks of [parent]. *)
Definition parent_ready (fs : gmap (list string) node) (parent : list string)
    : option os_error :=
  match node_at fs parent with
  | Some Dir => None
  | Some (File _) => Some NotADirectoryError
  | None => Some FileNotFoundError
  end.

(** [os.mkdir] *)
Definition mkdir (p : list string) (fs : gmap (list string) node)
    : outcome os_error (gmap (list string) node) :=
  if exists_path fs p then Raise FileExistsError fs
  else
    match parent_ready fs (tail p) with
    | Some e => Raise e fs
    | None => Ok (<[p := Dir]> fs)
    end.

(** [os.makedirs]: the missing directories above first, then the leaf. *)
Fixpoint makedirs (p : list string) (fs : gmap (list string) node)
    : outcome os_error (gmap (list string) node) :=
  match p with
  | [] => mkdir [] fs
  | c :: parent =>
      if exists_path fs parent then mkdir (c :: parent) fs
      else
        match makedirs parent fs with
        | Ok fs' => mkdir (c :: parent) fs'
        | Raise FileExistsError fs' => mkdir (c :: parent) fs'   (* except: pass *)
        | Raise e fs' => Raise e fs'
        end
  end.

(** [with open(p, "w+") as fp: fp.write(content)] *)
Definition write_text (p : list string) (content : string)
    (fs : gmap (list string) node) : outcome os_error (gmap (list string) node) :=
  match parent_ready fs (tail p) with
  | Some e => Raise e fs
  | None =>
      match node_at fs p with
      | Some Dir => Raise IsADirectoryError fs
      | _ => Ok (<[p := File content]> fs)
      end
  end.

(** [os.mknod] *)
Definition mknod (p : list string) (fs : gmap (list string) node)
    : outcome os_error (gmap (list string) node) :=
  if exists_path fs p then Raise FileExistsError fs
  else
    match parent_ready fs (tail p) with
    | Some e => Raise e fs
    | None => Ok (<[p := File ""]> fs)
    end.

(** [if not os.path.exists(d): os.makedirs(d)] *)
Definition ensure_dir (d : list string) (fs : gmap (list string) node)
    : outcome os_error (gmap (list string) node) :=
  if exists_path fs d then Ok fs else makedirs d fs.

Definition and_then {E A : Type} (r : outcome E A) (k : A → outcome E A)
    : outcome E A :=
  match r with
  | Ok a => k a
  | Raise e a => Raise e a
  end.

(** The paths of a series under the result directory. *)
Definition series_dir (result_dir : list string) (sid : Z) : list string :=
  pretty sid :: result_dir.
Definition tree_test_dir (result_dir : list string) (sid : Z) : list string :=
  "tree_selection" :: series_dir result_dir sid.
Definition retcode_file (result_dir : list string) (sid : Z) : list string :=
  "retcode" :: tree_test_dir result_dir sid.
Definition desc_file (result_dir : list string) (sid : Z) : list string :=
  "desc" :: tree_test_dir result_dir sid.
Definition done_file (result_dir : list string) (sid : Z) : list string :=
  ".tester_done" :: series_dir result_dir sid.
Definition patch_dir (result_dir : list string) (sid patch : Z) : list string :=
  pretty patch :: series_dir result_dir sid.

(** [write_tree_selection_result(s, comment)], with [sid] for [s.id] and
    [patches] for the ids of [s.patches]. *)
Definition write_tree_selection_result (result_dir : list string) (sid : Z)
    (patches : list Z) (comment : string) (fs : gmap (list string) node)
    : outcome os_error (gmap (list string) node) :=
  and_then (ensure_dir (tree_test_dir result_dir sid) fs) (λ fs,
  and_then (write_text (retcode_file result_dir sid) "0" fs) (λ fs,
  and_then (write_text (desc_file result_dir sid) comment fs) (λ fs,
    if exists_path fs (done_file result_dir sid) then
      (* Real tester has already run and created the real hierarchy *)
      Ok fs
    else
      and_then
        (for_each (λ fs patch, ensure_dir (patch_dir result_dir sid patch) fs)
           patches fs)
        (mknod (done_file result_dir sid))))).

(** The path [q] is [p] or lies above it. *)
Definition at_or_above (q p : list string) : Prop := q `suffix_of` p.

(** From [fs] to [fs'] nothing changed but at paths in [P]. *)
Definition changes_within (P : list string → Prop)
    (fs fs' : gmap (list string) node) : Prop :=
  ∀ q, fs' !! q = fs !! q ∨ P q.

(** From [fs] to [fs'] every node outside [E] is still there, unchanged. *)
Definition keeps_outside (E : list string → Prop)
    (fs fs' : gmap (list string) node) : Prop :=
  ∀ q n, ¬ E q → fs !! q = Some n → fs' !! q = Some n.

(** ** Sample data *)

Definition sample_verdicts : verdicts :=
  {| series_tree_name_direct := None;
     series_tree_name_should_be_local := true;
     series_ignore_missing_tree_name := false;
     series_is_a_fix_for_net := true;
     net_next_check_applies := true |}.

(** A result directory in which the tester has finished series 42. *)
Definition tested_disk : gmap (list string) node :=
  {[ ["results"] := Dir;
     ["42"; "results"] := Dir;
     [".tester_done"; "42"; "results"] := File "";
     ["1001"; "42"; "results"] := Dir;
     ["summary"; "1001"; "42"; "results"] := File "ok" ]}.

(** A result directory that is there and empty. *)
Definition empty_disk : gmap (list string) node := {[ ["results"] := Dir ]}.

Definition sample_patches : list Z := [1001; 1002].

Definition sample_comment : string := "Guessed tree name to be net".

(** [empty_disk] after the tree selection of series 42 was written. *)
Definition selected_disk : gmap (list string) node :=
  final (write_tree_selection_result ["results"] 42 sample_patches sample_comment
           empty_disk).

End TreeSelection.

(** * Loops *)

Lemma for_each_final {E A X : Type} (R : A → A → Prop) (body : A → X → outcome E A) :
  (∀ a, R a a) → (∀ a b c, R a b → R b c → R a c) →
  (∀ a x, R a (final (body a x))) →
  ∀ xs a, R a (final (for_each body xs a)).
Proof.
  intros Hrefl Htrans Hbody xs. induction xs as [|x xs IH]; intros a; simpl.
  - apply Hrefl.
  - specialize (Hbody a x). destruct (body a x) as [a'|e a']; simpl in *.
    + eapply Htrans; [exact Hbody|apply IH].
    + exact Hbody.
Qed.

(** * Properties of the patchwork poller *)

Module PwPollerProps.
Import PwPoller.

Lemma observe_incomplete (st : state) (s : pw_series) :
  id s ∉ seen_series st → loads s = true → received_all s = false →
  observe st s =
    Ok {| seen_series := seen_series st;
          partial_series :=
            <[id s := default 0 (partial_series st !! id s) + 1]> (partial_series st);
          prev_big_scan := prev_big_scan st;
          prev_req_time := prev_req_time st;
          this_poll_seen := this_poll_seen st;
          had_partial_series :=
            if bool_decide (default 0 (partial_series st !! id s) < 5)
            then true else had_partial_series st |}.
Proof.
  intros Hseen Hl Hr. unfold observe, process_series.
  rewrite bool_decide_eq_false_2 by done. rewrite Hl, Hr. simpl.
  unfold setdefault. destruct (partial_series st !! id s) as [n|] eqn:E; simpl.
  - rewrite E. simpl. done.
  - rewrite lookup_insert_eq. simpl. rewrite insert_insert_eq. done.
Qed.

Lemma cycle_lone_incomplete (p : poll) (st : state) (s : pw_series) :
  id s ∉ seen_series st → loads s = true → received_all s = false →
  interrupted p = false → (∀ since, answer p since = Some [s]) →
  ∃ st', cycle p st = Ok st' ∧
    (id s ∉ seen_series st') ∧
    partial_series st' !! id s = Some (default 0 (partial_series st !! id s) + 1) ∧
    prev_req_time st' =
      (if (schedule (prev_big_scan st) (prev_req_time st) (req_time p)).1
          || bool_decide (5 ≤ default 0 (partial_series st !! id s))
       then req_time p else prev_req_time st).
Proof.
  intros Hseen Hl Hr Hi Ha. unfold cycle. simpl.
  destruct (schedule _ _ _) as [big since] eqn:Es. rewrite Ha. simpl.
  rewrite observe_incomplete by done. simpl. rewrite Hi.
  eexists; split; [done|]. unfold advance; simpl.
  destruct big; simpl.
  - split; [set_solver|]. split; [by rewrite lookup_insert_eq|done].
  - case_bool_decide as Hn; simpl.
    + split; [done|]. split; [by rewrite lookup_insert_eq|].
      rewrite bool_decide_eq_false_2 by lia. done.
    + split; [done|]. split; [by rewrite lookup_insert_eq|].
      rewrite bool_decide_eq_true_2 by lia. done.
Qed.

Lemma loop_lone_incomplete (s : pw_series) (ps : list poll) :
  loads s = true → received_all s = false →
  Forall (λ p, interrupted p = false ∧ ∀ since, answer p since = Some [s]) ps →
  ∀ st, id s ∉ seen_series st →
  ∃ st', loop ps st = Ok st' ∧ (id s ∉ seen_series st') ∧
    default 0 (partial_series st' !! id s) =
      default 0 (partial_series st !! id s) + Z.of_nat (length ps).
Proof.
  intros Hl Hr Hps. induction Hps as [|p ps [Hi Ha] _ IH]; intros st Hseen.
  - exists st. simpl. split; [done|]. split; [done|lia].
  - destruct (cycle_lone_incomplete p st s Hseen Hl Hr Hi Ha)
      as (st1 & Hc & Hseen1 & Hn1 & _).
    destruct (IH st1 Hseen1) as (st' & Hloop & Hseen' & Hn').
    exists st'. unfold loop in *. simpl. rewrite Hc. split; [done|]. split; [done|].
    rewrite Hn', Hn1. simpl. rewrite Nat2Z.inj_succ. lia.
Qed.

(** C2 (as the code has it).  A series that is the only one in the response
    and is incomplete turn after turn, starting with no ledger entry: on its
    observation number [k + 1] the turn completes, its count becomes [k + 1],
    and [prev_req_time] moves to the request time exactly when the turn is a
    big scan or five observations came before; on observations 1 to 5 of
    normal polls it stays where it was, on the 6th it moves. *)
Theorem retry_bound (s : pw_series) (ps : list poll) (st : state) :
  loads s = true → received_all s = false →
  id s ∉ seen_series st → partial_series st !! id s = None →
  Forall (λ p, interrupted p = false ∧ ∀ since, answer p since = Some [s]) ps →
  ∀ (k : nat) (p : poll), ps !! k = Some p →
    ∃ st_k st_k',
      loop (take k ps) st = Ok st_k ∧ cycle p st_k = Ok st_k' ∧
      partial_series st_k' !! id s = Some (Z.of_nat k + 1) ∧
      prev_req_time st_k' =
        (if (schedule (prev_big_scan st_k) (prev_req_time st_k) (req_time p)).1
            || bool_decide (5 ≤ k)%nat
         then req_time p else prev_req_time st_k).
Proof.
  intros Hl Hr Hseen Hnone Hps k p Hk.
  assert (Hlen : length (take k ps) = k).
  { rewrite length_take. apply lookup_lt_Some in Hk. lia. }
  destruct (loop_lone_incomplete s (take k ps) Hl Hr (Forall_take _ k _ Hps) st Hseen)
    as (st_k & Hloop & Hseen_k & Hn_k).
  rewrite Hnone, Hlen in Hn_k. simpl in Hn_k.
  pose proof (Forall_lookup_1 _ _ _ _ Hps Hk) as [Hi Ha].
  destruct (cycle_lone_incomplete p st_k s Hseen_k Hl Hr Hi Ha)
    as (st_k' & Hc & _ & Hn' & Hreq).
  exists st_k, st_k'. split; [done|]. split; [done|].
  rewrite Hn_k in Hn', Hreq. split; [by rewrite Hn'; f_equal; lia|].
  rewrite Hreq.
  by rewrite (bool_decide_ext (5 ≤ 0 + Z.of_nat k) (5 ≤ k)%nat) by lia.
Qed.

Lemma retry_bound_witness :
  ∃ st5 st6,
    loop (take 5 six_polls) calm = Ok st5 ∧
    cycle (poll_at (minutes 12) [stuck]) st5 = Ok st6 ∧
    partial_series st6 !! id stuck = Some (Z.of_nat 5 + 1) ∧
    prev_req_time st6 =
      (if (schedule (prev_big_scan st5) (prev_req_time st5)
             (req_time (poll_at (minutes 12) [stuck]))).1
          || bool_decide (5 ≤ 5)%nat
       then req_time (poll_at (minutes 12) [stuck]) else prev_req_time st5).
Proof.
  apply (retry_bound stuck six_polls calm);
    [reflexivity | reflexivity | set_solver | reflexivity
    | repeat constructor | reflexivity].
Defined.

(** The six polls of the sample, none of them a big scan: the cursor stays
    at 0 through the first five and moves to the request time at the sixth. *)
Example six_polls_cursor :
  (λ k, prev_req_time (final (loop (take k six_polls) calm))) <$> [1; 2; 3; 4; 5; 6]%nat
  = [0; 0; 0; 0; 0; minutes 12].
Proof. reflexivity. Qed.

(** C2 (as stated) fails on a big scan.  The stuck series is observed for
    the first time, alone, in a turn more than three hours after the last
    big scan: its count goes to 1 and [prev_req_time] moves from 0 to the
    request time all the same. *)
Lemma retry_bound_big_scan_moves_cursor :
  ∃ st',
    cycle (poll_at (hours 4) [stuck]) calm = Ok st' ∧
    partial_series calm !! id stuck = None ∧
    (id stuck ∉ seen_series calm) ∧
    partial_series st' !! id stuck = Some 1 ∧
    prev_req_time calm = 0 ∧
    prev_req_time st' = hours 4.
Proof.
  eexists. split; [reflexivity|]. split; [reflexivity|].
  split; [set_solver|]. repeat split; reflexivity.
Qed.

(** C6.  The turn is a big scan exactly when more than three hours separate
    the request time from the previous big scan, and then the window starts
    nine hours before the previous big scan; otherwise it starts four
    minutes before the previous request time.  The turn asks patchwork for
    the series since that window start and for nothing else. *)
Theorem poll_window_schedule (prev_big prev_req now : Z) :
  ((schedule prev_big prev_req now).1 = true ↔ hours 3 < now - prev_big) ∧
  (schedule prev_big prev_req now).2 =
    (if (schedule prev_big prev_req now).1
     then prev_big - hours 9 else prev_req - minutes 4) ∧
  hours 1 = 3600000000 ∧ minutes 1 = 60000000 ∧
  (∀ (p : poll) (st : state),
     prev_big_scan st = prev_big → prev_req_time st = prev_req →
     req_time p = now →
     cycle p st =
       cycle {| req_time := now;
                answer := λ _, answer p (schedule prev_big prev_req now).2;
                interrupted := interrupted p |} st).
Proof.
  split; [|split; [|split; [|split]]]; try reflexivity.
  - unfold schedule. case_bool_decide; simpl; split; (done || lia).
  - unfold schedule. by case_bool_decide.
  - intros p st <- <- <-. unfold cycle. simpl.
    by destruct (schedule _ _ _) as [big since].
Qed.

Lemma poll_window_schedule_witness :
  ((schedule 0 (hours 4) (hours 4 + minutes 2)).1 = true ↔
   hours 3 < hours 4 + minutes 2 - 0) ∧
  (schedule 0 (hours 4) (hours 4 + minutes 2)).2 =
    (if (schedule 0 (hours 4) (hours 4 + minutes 2)).1
     then 0 - hours 9 else hours 4 - minutes 4) ∧
  hours 1 = 3600000000 ∧ minutes 1 = 60000000 ∧
  (∀ (p : poll) (st : state),
     prev_big_scan st = 0 → prev_req_time st = hours 4 →
     req_time p = hours 4 + minutes 2 →
     cycle p st =
       cycle {| req_time := hours 4 + minutes 2;
                answer := λ _, answer p (schedule 0 (hours 4) (hours 4 + minutes 2)).2;
                interrupted := interrupted p |} st).
Proof. exact (poll_window_schedule 0 (hours 4) (hours 4 + minutes 2)). Defined.

Lemma ledger_le_refl (a : gmap Z Z) : ledger_le a a.
Proof. intros i n H. exists n. split; [done|lia]. Qed.

Lemma ledger_le_trans (a b c : gmap Z Z) :
  ledger_le a b → ledger_le b c → ledger_le a c.
Proof.
  intros Hab Hbc i n H. destruct (Hab i n H) as (n' & H' & Hle).
  destruct (Hbc i n' H') as (n'' & H'' & Hle'). exists n''. split; [done|lia].
Qed.

Lemma observe_ledger (st : state) (s : pw_series) :
  ledger_le (partial_series st) (partial_series (final (observe st s))).
Proof.
  unfold observe. destruct (process_series _ _) as [sn|[] sn]; simpl;
    try apply ledger_le_refl.
  intros i n H. unfold setdefault.
  destruct (decide (i = id s)) as [->|Hne].
  - rewrite H. simpl. rewrite H. simpl. rewrite lookup_insert_eq.
    eexists; split; [done|lia].
  - rewrite lookup_insert_ne by done.
    destruct (partial_series st !! id s); [|rewrite lookup_insert_ne by done];
      (eexists; split; [done|lia]).
Qed.

Lemma cycle_ledger (p : poll) (st : state) :
  ledger_le (partial_series st) (partial_series (final (cycle p st))).
Proof.
  unfold cycle. destruct (schedule _ _ _) as [big since].
  destruct (answer p since) as [resp|]; simpl; [|apply ledger_le_refl].
  pose proof (for_each_final
    (λ a b : state, ledger_le (partial_series a) (partial_series b)) observe
    (λ a, ledger_le_refl _) (λ a b c, ledger_le_trans _ _ _) observe_ledger
    resp (begin_scan (begin_poll st))) as H. simpl in H.
  destruct (for_each observe resp _) as [st'|e st']; simpl in *; [|done].
  assert (partial_series (advance big (req_time p) st') = partial_series st')
    as Hadv.
  { unfold advance. destruct big; [done|]. by destruct (had_partial_series st'). }
  destruct (interrupted p); simpl; by rewrite Hadv.
Qed.

(** C8 (as the code has it).  An incomplete observation writes the entry of
    the series: its count is one more than before, 1 when there was none.
    Nothing ever removes an entry or lowers a count: over any turns of the
    loop, big scans and turns in which the series completes included, the
    ledger keeps every entry it had. *)
Theorem retry_ledger_lifecycle :
  (∀ (st : state) (s : pw_series),
     id s ∉ seen_series st → loads s = true → received_all s = false →
     ∃ st', observe st s = Ok st' ∧
       partial_series st' =
         <[id s := default 0 (partial_series st !! id s) + 1]> (partial_series st)) ∧
  (∀ (ps : list poll) (st : state),
     ledger_le (partial_series st) (partial_series (final (loop ps st)))).
Proof.
  split.
  - intros st s Hseen Hl Hr. rewrite observe_incomplete by done.
    eexists; split; done.
  - intros ps st. unfold loop.
    apply (for_each_final
      (λ a b : state, ledger_le (partial_series a) (partial_series b))
      (λ st p, cycle p st)).
    + intros a. apply ledger_le_refl.
    + intros a b c. apply ledger_le_trans.
    + intros a p. apply cycle_ledger.
Qed.

Lemma retry_ledger_lifecycle_witness :
  (∃ st', observe calm stuck = Ok st' ∧
     partial_series st' =
       <[id stuck := default 0 (partial_series calm !! id stuck) + 1]>
         (partial_series calm)) ∧
  ledger_le (partial_series calm) (partial_series (final (loop six_polls calm))).
Proof.
  split.
  - apply (proj1 retry_ledger_lifecycle calm stuck);
      [set_solver | reflexivity | reflexivity].
  - apply (proj2 retry_ledger_lifecycle six_polls calm).
Defined.

(** C8 (as stated) fails: the ledger is not empty after a big scan, and the
    entry outlives the completion of its series.  The stuck series is met in
    a big scan, which leaves its entry at 1; in the next turn the series is
    complete and joins the seen set, and the entry is still there. *)
Lemma retry_ledger_survives_big_scan :
  ∃ st1 st2,
    cycle (poll_at (hours 4) [stuck]) calm = Ok st1 ∧
    prev_big_scan st1 = hours 4 ∧
    partial_series st1 !! 7 = Some 1 ∧
    cycle (poll_at (hours 4 + minutes 2) [unstuck]) st1 = Ok st2 ∧
    seen_series st2 = {[7]} ∧
    partial_series st2 !! 7 = Some 1.
Proof.
  eexists. eexists. split; [reflexivity|]. split; [reflexivity|].
  split; [reflexivity|]. split; [reflexivity|]. split; [|reflexivity].
  simpl. set_solver.
Qed.

(** C9 (as the code has it).  At startup a missing state file leaves the
    defaults (a last poll two hours back, nothing seen) and a stored cursor
    replaces them.  The state file is written when an exception ends the
    loop, from the last big scan time and the seen set of that moment, and
    at no other point: while the loop runs the file is the one found at
    startup.  What is written then is what the next startup reads. *)
Theorem cursor_persistence :
  (∀ now : Z,
     init now Absent =
       Ok {| _state := {| last_poll := now - hours 2; seen_series_list := [] |};
             self_seen_series := ∅ |}) ∧
  (∀ (now t : Z) (l : list Z),
     init now (Stored (Some t) (Some l)) =
       Ok {| _state := {| last_poll := t; seen_series_list := l |};
             self_seen_series := list_to_set l |}) ∧
  (∀ (start : Z) (ps : list poll) (self : poller) (f : state_file),
     (run start ps self f).2 =
       match (run start ps self f).1 with
       | Ok _ => f
       | Raise _ st =>
           Stored (Some (prev_big_scan st)) (Some (elements (seen_series st)))
       end) ∧
  (∀ (now : Z) (st : state),
     init now (dump_state st) =
       Ok {| _state := {| last_poll := prev_big_scan st;
                          seen_series_list := elements (seen_series st) |};
             self_seen_series := seen_series st |}).
Proof.
  split; [done|]. split; [done|]. split.
  - intros start ps self f. unfold run. by destruct (loop ps _).
  - intros now st. unfold init, dump_state. simpl.
    by rewrite list_to_set_elements_L.
Qed.

(** C9 (as stated) fails: a big scan is not followed by a save.  A poller
    without a state file makes a big scan that processes series 8; the turn
    completes, the last big scan time has moved from 0 to the request time,
    the seen set holds 8, and there is still no state file. *)
Lemma cursor_not_saved_after_big_scan :
  ∃ st,
    run 0 [poll_at (hours 4) [ready]] newborn Absent = (Ok st, Absent) ∧
    last_poll (_state newborn) = 0 ∧
    prev_big_scan st = hours 4 ∧
    seen_series st = {[8]}.
Proof.
  eexists. split; [reflexivity|]. split; [reflexivity|]. split; [reflexivity|].
  simpl. set_solver.
Qed.
End PwPollerProps.

(** * Properties of the results fetcher *)

Module ResultsFetcherProps.
Import ResultsFetcher.
Local Open Scope string_scope.

(** ** The rebuild *)

Lemma build_seen_entry_dir fs rs e : dir (build_seen_entry fs rs e) = dir rs.
Proof.
  unfold build_seen_entry. destruct (get "url" e) as [[|c u]|]; try done.
  by destruct (path_exists _ _ _).
Qed.

Lemma foldl_build_seen_entry_dir fs es rs :
  dir (foldl (build_seen_entry fs) rs es) = dir rs.
Proof.
  revert rs. induction es as [|e es IH]; intros rs; simpl; [done|].
  by rewrite IH, build_seen_entry_dir.
Qed.

Lemma build_seen_entry_seen fs rs e k :
  k ∈ seen (build_seen_entry fs rs e) ↔
  k ∈ seen rs ∨ (get "branch" e = k ∧ has_artifact fs (dir rs) e).
Proof.
  unfold build_seen_entry, has_artifact.
  destruct (get "url" e) as [[|c u]|] eqn:Eu; simpl.
  - split; [by left|]. intros [?|[_ (c & u & ? & _)]]; [done|congruence].
  - destruct (path_exists fs (dir rs) (basename (String c u))) eqn:Ef; simpl.
    + rewrite elem_of_union, elem_of_singleton. split.
      * intros [->|?]; [right|by left]. split; [done|]. by exists c, u.
      * intros [?|[<- _]]; [by right|by left].
    + split; [by left|]. intros [?|[_ (c' & u' & Hcu & Hsome)]]; [done|].
      simplify_eq. congruence.
  - split; [by left|]. intros [?|[_ (c & u & ? & _)]]; [done|congruence].
Qed.

Lemma build_seen_entry_wip fs rs e k :
  k ∈ wip (build_seen_entry fs rs e) ↔
  k ∈ wip rs ∨ (get "branch" e = k ∧ truthy (get "url" e) = false).
Proof.
  unfold build_seen_entry.
  destruct (get "url" e) as [[|c u]|] eqn:Eu; simpl.
  - rewrite elem_of_union, elem_of_singleton. split.
    + intros [->|?]; [by right|by left].
    + intros [?|[<- _]]; [by right|by left].
  - destruct (path_exists fs (dir rs) (basename (String c u))); simpl;
      (split; [by left|]; intros [?|[_ ?]]; done).
  - rewrite elem_of_union, elem_of_singleton. split.
    + intros [->|?]; [by right|by left].
    + intros [?|[<- _]]; [by right|by left].
Qed.

Lemma foldl_build_seen_entry_seen fs es rs k :
  k ∈ seen (foldl (build_seen_entry fs) rs es) ↔
  k ∈ seen rs ∨ ∃ e, e ∈ es ∧ get "branch" e = k ∧ has_artifact fs (dir rs) e.
Proof.
  revert rs. induction es as [|e es IH]; intros rs; simpl.
  - split; [by left|]. intros [?|(e & He & _)]; [done|]. by apply elem_of_nil in He.
  - rewrite IH, build_seen_entry_seen, build_seen_entry_dir. split.
    + intros [[?|[? ?]]|(e' & ? & ? & ?)]; [by left|right..].
      * exists e. split; [left|done].
      * exists e'. split; [by right|done].
    + intros [?|(e' & He' & ? & ?)]; [by left; left|].
      apply elem_of_cons in He' as [->|?]; [by left; right|].
      right. by exists e'.
Qed.

Lemma foldl_build_seen_entry_wip fs es rs k :
  k ∈ wip (foldl (build_seen_entry fs) rs es) ↔
  k ∈ wip rs ∨ ∃ e, e ∈ es ∧ get "branch" e = k ∧ truthy (get "url" e) = false.
Proof.
  revert rs. induction es as [|e es IH]; intros rs; simpl.
  - split; [by left|]. intros [?|(e & He & _)]; [done|]. by apply elem_of_nil in He.
  - rewrite IH, build_seen_entry_wip. split.
    + intros [[?|[? ?]]|(e' & ? & ? & ?)]; [by left|right..].
      * exists e. split; [left|done].
      * exists e'. split; [by right|done].
    + intros [?|(e' & He' & ? & ?)]; [by left; left|].
      apply elem_of_cons in He' as [->|?]; [by left; right|].
      right. by exists e'.
Qed.

Lemma snapshot_whole fs d results es :
  fs !! (d, "results.json") = Some (Whole results) → entries results = Some es →
  snapshot fs d = es.
Proof. intros H1 H2. unfold snapshot. by rewrite H1, H2. Qed.

Lemma complete_in_nil fs d k : snapshot fs d = [] → ¬ complete_in fs d k.
Proof. intros Hs (e & He & _). rewrite Hs in He. by apply elem_of_nil in He. Qed.

Lemma pending_in_nil fs d k : snapshot fs d = [] → ¬ pending_in fs d k.
Proof. intros Hs (e & He & _). rewrite Hs in He. by apply elem_of_nil in He. Qed.

Lemma rebuilt_insert cfg fs sn n rs :
  rebuilt cfg fs sn →
  dir rs = path_join (output_dir cfg) n →
  (∀ k, k ∈ seen rs ↔ complete_in fs (dir rs) k) →
  (∀ k, k ∈ wip rs ↔ pending_in fs (dir rs) k) →
  rebuilt cfg fs (<[n := rs]> sn).
Proof.
  intros Hsn Hd Hs Hw n' rs' Hl.
  destruct (decide (n = n')) as [<-|Hne].
  - rewrite lookup_insert_eq in Hl. by simplify_eq.
  - rewrite lookup_insert_ne in Hl by done. by apply Hsn.
Qed.

Lemma build_seen_remote_rebuilt cfg fs sn r sn' :
  rebuilt cfg fs sn → build_seen_remote cfg fs sn r = Ok sn' →
  rebuilt cfg fs sn' ∧ is_Some (sn' !! name r) ∧
  (∀ n, is_Some (sn !! n) → is_Some (sn' !! n)).
Proof.
  intros Hsn. unfold build_seen_remote.
  set (d := path_join (output_dir cfg) (name r)).
  set (fresh := {| seen := ∅; wip := ∅; dir := d; served := _ |}).
  assert (∀ (rs : remote_state) n, is_Some (sn !! n) →
    is_Some (<[name r := rs]> sn !! n)) as Hkeep.
  { intros rs n Hn. destruct (decide (name r = n)) as [<-|Hne].
    - rewrite lookup_insert_eq. by eexists.
    - by rewrite lookup_insert_ne. }
  destruct (fs !! (d, "results.json")) as [[results|]|] eqn:Ef; [|done|].
  - destruct (entries results) as [es|] eqn:Ee; [|done].
    intros [= <-]. rewrite insert_insert_eq.
    pose proof (snapshot_whole fs d results es Ef Ee) as Hsnap.
    split; [|split].
    + apply rebuilt_insert; [done|..].
      * by rewrite foldl_build_seen_entry_dir.
      * intros k. rewrite foldl_build_seen_entry_seen, foldl_build_seen_entry_dir.
        simpl. unfold complete_in. rewrite Hsnap. split.
        -- intros [Hk|?]; [|done]. by apply not_elem_of_empty in Hk.
        -- intros ?. by right.
      * intros k. rewrite foldl_build_seen_entry_wip, foldl_build_seen_entry_dir.
        simpl. unfold pending_in. rewrite Hsnap. split.
        -- intros [Hk|?]; [|done]. by apply not_elem_of_empty in Hk.
        -- intros ?. by right.
    + rewrite lookup_insert_eq. by eexists.
    + intros n Hn. by apply Hkeep.
  - intros [= <-].
    assert (snapshot fs d = []) as Hsnap by (unfold snapshot; by rewrite Ef).
    split; [|split].
    + apply rebuilt_insert; [done|done|..]; simpl; intros k; split.
      * intros Hk. by apply not_elem_of_empty in Hk.
      * intros Hk. by apply complete_in_nil in Hk.
      * intros Hk. by apply not_elem_of_empty in Hk.
      * intros Hk. by apply pending_in_nil in Hk.
    + rewrite lookup_insert_eq. by eexists.
    + intros n Hn. by apply Hkeep.
Qed.

Lemma build_seen_loop_rebuilt cfg fs remote_db sn sn' :
  rebuilt cfg fs sn →
  for_each (build_seen_remote cfg fs) remote_db sn = Ok sn' →
  rebuilt cfg fs sn' ∧
  (∀ n, is_Some (sn !! n) → is_Some (sn' !! n)) ∧
  (∀ r, r ∈ remote_db → is_Some (sn' !! name r)).
Proof.
  revert sn. induction remote_db as [|r db IH]; intros sn Hsn; simpl.
  - intros [= <-]. split; [done|]. split; [done|].
    intros r Hr. by apply elem_of_nil in Hr.
  - destruct (build_seen_remote cfg fs sn r) as [sn1|] eqn:E1; [|done].
    intros Hloop.
    destruct (build_seen_remote_rebuilt _ _ _ _ _ Hsn E1) as (Hsn1 & Hr1 & Hk1).
    destruct (IH sn1 Hsn1 Hloop) as (Hsn' & Hk' & Hdb).
    split; [done|]. split; [by intros n Hn; apply Hk', Hk1|].
    intros r' Hr'. apply elem_of_cons in Hr' as [->|Hr']; [by apply Hk'|by apply Hdb].
Qed.

Lemma build_seen_rebuilt cfg remote_db fs sn :
  build_seen cfg remote_db fs = Ok sn →
  rebuilt cfg fs sn ∧ ∀ r, r ∈ remote_db → is_Some (sn !! name r).
Proof.
  intros H. apply build_seen_loop_rebuilt in H as (? & _ & ?); [done|].
  intros n rs Hl. by rewrite lookup_empty in Hl.
Qed.

Lemma path_exists_directory fs d b :
  target_of d b = Directory → path_exists fs d b = true.
Proof. intros H. unfold path_exists. by rewrite H. Qed.

(** C4 (as the code has it).  After a rebuild, a key is complete exactly
    when the snapshot lists it with an artifact reference whose path in the
    directory of the source exists, and in progress exactly when the
    snapshot lists it without an artifact reference.  A key that the
    snapshot lists only with references to paths that are missing is in
    neither set.  The test being [os.path.exists], a reference whose base
    name is empty, "." or ".." names a directory that is there: its key is
    complete whatever files the disk holds. *)
Theorem rebuild_classification (cfg : config) (remote_db : list remote)
    (fs : gmap (string * string) file) (sn : gmap string remote_state)
    (n : string) (rs : remote_state) :
  build_seen cfg remote_db fs = Ok sn → sn !! n = Some rs →
  (∀ k, k ∈ seen rs ↔ complete_in fs (dir rs) k) ∧
  (∀ k, k ∈ wip rs ↔ pending_in fs (dir rs) k) ∧
  (∀ k,
     (∀ e, e ∈ snapshot fs (dir rs) → get "branch" e = k →
        truthy (get "url" e) = true ∧ ¬ has_artifact fs (dir rs) e) →
     (k ∉ seen rs) ∧ (k ∉ wip rs)) ∧
  (∀ e c u,
     e ∈ snapshot fs (dir rs) → get "url" e = Some (String c u) →
     target_of (dir rs) (basename (String c u)) = Directory →
     get "branch" e ∈ seen rs).
Proof.
  intros Hb Hl. apply build_seen_rebuilt in Hb as [Hsn _].
  destruct (Hsn n rs Hl) as (_ & Hs & Hw).
  split; [done|]. split; [done|]. split.
  - intros k Hk. split.
    + rewrite Hs. intros (e & He & Hbr & Ha). by destruct (Hk e He Hbr).
    + rewrite Hw. intros (e & He & Hbr & Hu). destruct (Hk e He Hbr). congruence.
  - intros e c u He Hu Hd. apply Hs. exists e. split; [done|]. split; [done|].
    exists c, u. split; [done|]. by apply path_exists_directory.
Qed.

Lemma rebuild_classification_witness :
  (∀ k, k ∈ seen state_a_blank ↔ complete_in disk_dangling (dir state_a_blank) k) ∧
  (∀ k, k ∈ wip state_a_blank ↔ pending_in disk_dangling (dir state_a_blank) k) ∧
  (∀ k,
     (∀ e, e ∈ snapshot disk_dangling (dir state_a_blank) → get "branch" e = k →
        truthy (get "url" e) = true ∧
        ¬ has_artifact disk_dangling (dir state_a_blank) e) →
     (k ∉ seen state_a_blank) ∧ (k ∉ wip state_a_blank)) ∧
  (∀ e c u,
     e ∈ snapshot disk_dangling (dir state_a_blank) →
     get "url" e = Some (String c u) →
     target_of (dir state_a_blank) (basename (String c u)) = Directory →
     get "branch" e ∈ seen state_a_blank).
Proof.
  apply (rebuild_classification sample_cfg [source_a] disk_dangling
           {["a" := state_a_blank]} "a" state_a_blank);
    vm_compute; reflexivity.
Defined.

(** C4 (as stated) fails for a reference to a missing file.  The snapshot
    of source a lists br1 with the artifact run1.json and that file is not
    on disk: the rebuild puts br1 in neither set, in progress no more than
    complete. *)
Lemma dangling_key_is_unclassified :
  ∃ sn rs,
    build_seen sample_cfg [source_a] disk_dangling = Ok sn ∧
    sn !! "a" = Some rs ∧
    snapshot disk_dangling (dir rs) = [run_done] ∧
    get "branch" run_done = Some "br1" ∧
    get "url" run_done = Some "http://a/run1.json" ∧
    path_exists disk_dangling (dir rs) (basename "http://a/run1.json") = false ∧
    seen rs = ∅ ∧ wip rs = ∅.
Proof.
  exists {["a" := state_a_blank]}, state_a_blank.
  repeat split; vm_compute; reflexivity.
Qed.

(** A reference that ends in a separator has an empty base name, and the
    path it is joined to is the directory of the source: with no artifact
    on disk at all, the rebuild has br3 complete. *)
Example trailing_separator_counts_as_complete :
  ∃ sn rs,
    build_seen sample_cfg [source_a] disk_slash = Ok sn ∧
    sn !! "a" = Some rs ∧
    snapshot disk_slash (dir rs) = [run_slash] ∧
    basename "http://a/runs/" = "" ∧
    seen rs = {[Some "br3"]} ∧ wip rs = ∅.
Proof.
  exists {["a" := {| seen := {[Some "br3"]}; wip := ∅; dir := "out/a";
                     served := "contest/a" |}]}.
  eexists. repeat split; vm_compute; reflexivity.
Qed.

(** ** The fetch *)

Lemma fetch_effect_refl sn w : fetch_effect sn w w.
Proof.
  split; [done|]. split; [|split; [by left|done]].
  exists []. split; [by rewrite app_nil_r|constructor].
Qed.

Lemma fetch_effect_trans sn w1 w2 w3 :
  fetch_effect sn w1 w2 → fetch_effect sn w2 w3 → fetch_effect sn w1 w3.
Proof.
  intros (Hs1 & (n1 & Hl1 & Hf1) & Hp1 & Hd1) (Hs2 & (n2 & Hl2 & Hf2) & Hp2 & Hd2).
  split; [congruence|]. split; [|split].
  - exists (n1 ++ n2)%list. split; [by rewrite Hl2, Hl1, app_assoc|].
    by apply Forall_app.
  - intros p. destruct (Hp2 p) as [He2|[Hin2 Hsome2]]; [|by right].
    destruct (Hp1 p) as [He1|[Hin1 Hsome1]]; [left; congruence|].
    right. split; [done|]. by rewrite He2.
  - auto.
Qed.

Lemma write_json_lookup p data fs q :
  write_json p data fs !! q = if decide (p = q) then Some (Whole data) else fs !! q.
Proof.
  unfold write_json, fs_dump, fs_open_w. case_decide as Hpq.
  - subst. by rewrite lookup_insert_eq.
  - by rewrite !lookup_insert_ne.
Qed.

Lemma fetch_remote_run_effect net run u rs w sn n b :
  sn !! n = Some rs → run !! "branch" = Some b → b ∉ seen rs →
  fetch_effect sn w (final (fetch_remote_run net run u rs w)) ∧
  fetched (final (fetch_remote_run net run u rs w)) = fetched w.
Proof.
  intros Hn Hb Hs.
  assert (Forall (fresh_fetch sn) [FetchRun (dir rs) run]) as Hnew.
  { repeat constructor. by exists n, rs, run, b. }
  unfold fetch_remote_run.
  destruct (net u) as [|[| |data]];
    [| | |destruct (target_of (dir rs) (basename u))]; simpl;
    (split; [|done]); (split; [done|]); (split; [by eexists|]);
    (split; [|done]); intros p; simpl; try by left.
  rewrite write_json_lookup. case_decide as Hp; [|by left].
  right. subst p. simpl. split; [by exists n, rs|by eexists].
Qed.

(** Over an empty disk the same reference is fetched, and writing the
    artifact fails: the file to open is the directory of the source.  The
    turn ends there with nothing written. *)
Example trailing_separator_fetch_raises :
  ∃ w',
    cycle sample_lib sample_cfg [source_a] net_slash (start ∅)
      = Raise IsADirectoryError w' ∧
    log w' = [FetchRun "out/a" run_slash] ∧ files w' = ∅.
Proof. eexists. split; [vm_compute; reflexivity|]. split; reflexivity. Qed.

Lemma fetch_run_effect net rs w run sn n :
  sn !! n = Some rs →
  fetch_effect sn w (final (fetch_run net rs w run)).
Proof.
  intros Hn. unfold fetch_run.
  destruct (run !! "branch") as [b|] eqn:Eb; [|apply fetch_effect_refl].
  case_bool_decide as Hs; [apply fetch_effect_refl|].
  destruct (run !! "url") as [[[|c u]|]|] eqn:Eu; simpl;
    try apply fetch_effect_refl.
  - split; [done|]. split; [|split; [by left|]].
    + exists []. split; [by rewrite app_nil_r|constructor].
    + simpl. by intros ->.
  - destruct (fetch_remote_run_effect net run (String c u) rs w sn n b Hn Eb Hs)
      as [(H1 & H2 & H3 & H4) _].
    destruct (fetch_remote_run _ _ _ _ _) as [w'|e w']; simpl in *; by repeat split.
  - split; [done|]. split; [|split; [by left|]].
    + exists []. split; [by rewrite app_nil_r|constructor].
    + simpl. by intros ->.
Qed.

Lemma fetch_runs_effect net rs runs w sn n :
  sn !! n = Some rs →
  fetch_effect sn w (final (for_each (fetch_run net rs) runs w)).
Proof.
  intros Hn. apply for_each_final.
  - apply fetch_effect_refl.
  - apply fetch_effect_trans.
  - intros a x. by eapply fetch_run_effect.
Qed.

Lemma fetch_remote_effect net r w :
  fetch_effect (main_seen w) w (final (fetch_remote net r w)).
Proof.
  unfold fetch_remote.
  destruct (net (url r)) as [|[| |manifest]]; simpl; try apply fetch_effect_refl.
  destruct (main_seen w !! name r) as [rs|] eqn:En; [|apply fetch_effect_refl].
  destruct (entries manifest) as [runs|]; [|apply fetch_effect_refl].
  pose proof (fetch_runs_effect net rs runs w _ _ En) as Hloop.
  destruct (for_each _ runs w) as [w'|e w']; simpl in *; [|done].
  eapply fetch_effect_trans; [exact Hloop|].
  split; [done|]. split; [|split; [|done]].
  - exists []. split; [by rewrite app_nil_r|constructor].
  - intros p. simpl. rewrite write_json_lookup. case_decide as Hp; [|by left].
    right. subst p. simpl. split; [by exists (name r), rs|by eexists].
Qed.

Lemma fetch_all_effect net remote_db w :
  fetch_effect (main_seen w) w (final (fetch_all net remote_db w)).
Proof.
  unfold fetch_all. revert w. induction remote_db as [|r db IH]; intros w; simpl.
  - apply fetch_effect_refl.
  - pose proof (fetch_remote_effect net r w) as H1.
    destruct (fetch_remote net r w) as [w1|e w1]; simpl in *; [|done].
    specialize (IH w1). destruct H1 as (Hs & ?). rewrite Hs in IH.
    eapply fetch_effect_trans; [|exact IH]. by split.
Qed.

(** ** A turn that fetches nothing keeps the seen state in step *)

Lemma set_fetched_same w : set_fetched (fetched w) w = w.
Proof. by destruct w. Qed.

Lemma get_lookup k (d : gmap string (option string)) v :
  d !! k = Some v → get k d = v.
Proof. intros H. unfold get. by rewrite H. Qed.

Lemma fetch_run_quiet net rs w run w' :
  fetch_run net rs w run = Ok w' → fetched w' = false →
  w' = w ∧ (truthy (get "url" run) = true → get "branch" run ∈ seen rs).
Proof.
  unfold fetch_run.
  destruct (run !! "branch") as [b|] eqn:Eb; [|done].
  rewrite (get_lookup _ _ _ Eb).
  case_bool_decide as Hs; [by intros [= <-]|].
  destruct (run !! "url") as [v|] eqn:Eu; [|done].
  rewrite (get_lookup _ _ _ Eu).
  assert (Ok (E:=exn) (set_fetched (fetched w || bool_decide (b ∉ wip rs)) w) = Ok w' →
          fetched w' = false → truthy v = false →
          w' = w ∧ (truthy v = true → b ∈ seen rs)) as Hwip.
  { intros [= <-] Hf Hv. simpl in Hf. rewrite Hf.
    apply orb_false_iff in Hf as [Hf _]. split; [|congruence].
    rewrite <- Hf. apply set_fetched_same. }
  destruct v as [[|c u]|]; [by intros; apply Hwip| |by intros; apply Hwip].
  destruct (fetch_remote_run _ _ _ _ _); [|done]. by intros [= <-].
Qed.

Lemma fetch_runs_quiet net rs runs w w' :
  for_each (fetch_run net rs) runs w = Ok w' → fetched w' = false →
  w' = w ∧ ∀ e, e ∈ runs → truthy (get "url" e) = true → get "branch" e ∈ seen rs.
Proof.
  revert w. induction runs as [|run runs IH]; intros w; simpl.
  - intros [= <-] _. split; [done|]. intros e He. by apply elem_of_nil in He.
  - destruct (fetch_run net rs w run) as [w1|] eqn:E1; [|done].
    intros Hloop Hf. destruct (IH w1 Hloop Hf) as [-> Hruns].
    destruct (fetch_run_quiet _ _ _ _ _ E1 Hf) as [-> Hrun].
    split; [done|]. intros e He. apply elem_of_cons in He as [->|He]; auto.
Qed.

Lemma has_artifact_truthy fs d e : has_artifact fs d e → truthy (get "url" e) = true.
Proof. intros (c & u & -> & _). done. Qed.

Lemma complete_in_ext fs fs' d k :
  (∀ x, fs' !! (d, x) = fs !! (d, x)) → complete_in fs' d k → complete_in fs d k.
Proof.
  intros Hext (e & He & Hb & c & u & Hu & Hf). exists e.
  unfold snapshot in *. rewrite Hext in He. split; [done|]. split; [done|].
  exists c, u. split; [done|]. unfold path_exists in *. by rewrite <- Hext.
Qed.

Lemma fetch_remote_in_step cfg fs0 net r w w' :
  rebuilt cfg fs0 (main_seen w) →
  (∀ d k, complete_in (files w) d k → complete_in fs0 d k) →
  fetch_remote net r w = Ok w' → fetched w' = false →
  ∀ d k, complete_in (files w') d k → complete_in fs0 d k.
Proof.
  intros Hsn Hsub. unfold fetch_remote.
  destruct (net (url r)) as [|[| |manifest]]; try done; [by intros [= <-]|].
  destruct (main_seen w !! name r) as [rs|] eqn:En; [|done].
  destruct (entries manifest) as [runs|] eqn:Ee; [|done].
  destruct (for_each _ runs w) as [w1|] eqn:Eloop; [|done].
  intros [= <-] Hf. simpl in Hf.
  destruct (fetch_runs_quiet _ _ _ _ _ Eloop Hf) as [-> Hruns].
  destruct (Hsn _ _ En) as (_ & Hseen & _).
  intros d k Hc. simpl in Hc. destruct (decide (d = dir rs)) as [->|Hd].
  - apply Hseen. destruct Hc as (e & He & <- & Ha).
    apply Hruns; [|by eapply has_artifact_truthy].
    erewrite snapshot_whole in He; [done| |done].
    by rewrite write_json_lookup, decide_True.
  - apply Hsub. eapply complete_in_ext; [|exact Hc].
    intros x. rewrite write_json_lookup, decide_False; [done|congruence].
Qed.

Lemma fetch_all_in_step cfg fs0 net remote_db w w' :
  rebuilt cfg fs0 (main_seen w) →
  (∀ d k, complete_in (files w) d k → complete_in fs0 d k) →
  fetch_all net remote_db w = Ok w' → fetched w' = false →
  ∀ d k, complete_in (files w') d k → complete_in fs0 d k.
Proof.
  unfold fetch_all. revert w.
  induction remote_db as [|r db IH]; intros w Hsn Hsub; simpl.
  - by intros [= <-].
  - destruct (fetch_remote net r w) as [w1|] eqn:E1; [|done].
    intros Hloop Hf.
    pose proof (fetch_remote_effect net r w) as (Hs1 & _). rewrite E1 in Hs1.
    pose proof (fetch_all_effect net db w1) as (_ & _ & _ & Hd).
    unfold fetch_all in Hd. rewrite Hloop in Hd. simpl in *.
    assert (fetched w1 = false) as Hf1.
    { destruct (fetched w1); [|done]. rewrite Hd in Hf; done. }
    apply (IH w1); [by rewrite Hs1| |done|done].
    by eapply fetch_remote_in_step.
Qed.

Lemma rebuild_in_step cfg remote_db w w1 :
  tracked cfg w → rebuild cfg remote_db w = Ok w1 →
  fetched w1 = false ∧ files w1 = files w ∧ log w1 = log w ∧ in_step cfg w1 ∧
  (fetched w = false → w1 = w).
Proof.
  intros Ht. unfold rebuild. destruct (fetched w) eqn:Ef.
  - destruct (build_seen cfg remote_db (files w)) as [sn|] eqn:Eb; [|done].
    intros [= <-]. simpl. repeat split; try done.
    exists (files w). split; [|done]. by apply build_seen_rebuilt in Eb as [? _].
  - intros [= <-]. destruct Ht as [?|?]; [congruence|]. by repeat split.
Qed.

Lemma publish_effect lib cfg net remote_db w :
  fetched (final (publish lib cfg net remote_db w)) = fetched w ∧
  main_seen (final (publish lib cfg net remote_db w)) = main_seen w ∧
  ∃ new, log (final (publish lib cfg net remote_db w)) = (log w ++ new)%list ∧
         Forall (λ ev, ∃ view, ev = Published view) new.
Proof.
  unfold publish. destruct (fetched w) eqn:Ef; simpl.
  - destruct (build_combined _ _ _ _ _) as [results|]; simpl.
    + repeat split; [done|]. eexists. split; [done|]. repeat constructor. by eexists.
    + repeat split; [done|]. exists []. by rewrite app_nil_r.
  - repeat split; [done|]. exists []. by rewrite app_nil_r.
Qed.

Lemma cycle_tracked lib cfg remote_db net w w' :
  tracked cfg w → cycle lib cfg remote_db net w = Ok w' → tracked cfg w'.
Proof.
  intros Ht. unfold cycle.
  destruct (rebuild cfg remote_db w) as [w1|] eqn:E1; [|done].
  destruct (rebuild_in_step _ _ _ _ Ht E1) as (Hf1 & Hfs1 & _ & (fs0 & Hsn & Hsub) & _).
  destruct (fetch_all net remote_db w1) as [w2|] eqn:E2; [|done].
  intros Hp. destruct (fetched w2) eqn:Ef2.
  - left. pose proof (publish_effect lib cfg net remote_db w2) as (Hf & _).
    rewrite Hp in Hf. simpl in Hf. congruence.
  - right. unfold publish in Hp. rewrite Ef2 in Hp. injection Hp as <-.
    pose proof (fetch_all_effect net remote_db w1) as (Hs2 & _).
    rewrite E2 in Hs2. simpl in Hs2.
    exists fs0. split; [by rewrite Hs2|]. by eapply fetch_all_in_step.
Qed.

Lemma reachable_tracked lib cfg remote_db w :
  reachable lib cfg remote_db w → tracked cfg w.
Proof.
  induction 1 as [fs|net w w' _ IH Hc]; [by left|]. by eapply cycle_tracked.
Qed.

Lemma fresh_fetch_other_key sn fs0 cfg d k ev :
  rebuilt cfg fs0 sn → complete_in fs0 d k → fresh_fetch sn ev → ¬ fetches_key d k ev.
Proof.
  intros Hsn Hk (n & rs & run & b & Hn & -> & Hb & Hs) (run' & [= <- <-] & Hb').
  destruct (Hsn _ _ Hn) as (_ & Hseen & _). apply Hs, Hseen. congruence.
Qed.

(** C1.  In any state the process can reach, if the snapshot of directory
    [d] lists key [k] with an artifact reference and that artifact file is
    in [d], then the next turn, whatever the network answers and whether or
    not the turn completes, makes no call of [fetch_remote_run] for key [k]
    into [d]. *)
Theorem at_most_once_fetch (lib : datetime_lib) (cfg : config)
    (remote_db : list remote) (net : string → reply) (w : world)
    (d : string) (k : option string) :
  reachable lib cfg remote_db w →
  complete_in (files w) d k →
  Forall (λ ev, ¬ fetches_key d k ev)
    (since (length (log w)) (log (final (cycle lib cfg remote_db net w)))).
Proof.
  intros Hr Hk. apply reachable_tracked in Hr. unfold cycle, since.
  destruct (rebuild cfg remote_db w) as [w1|e w1] eqn:E1.
  2:{ assert (w1 = w) as ->.
      { unfold rebuild in E1. destruct (fetched w); [|done].
        destruct (build_seen _ _ _); [done|]. by injection E1. }
      simpl. rewrite drop_all. constructor. }
  destruct (rebuild_in_step _ _ _ _ Hr E1) as (_ & Hfs1 & Hl1 & (fs0 & Hsn & Hsub) & _).
  rewrite Hfs1 in Hsub. apply Hsub in Hk.
  pose proof (fetch_all_effect net remote_db w1) as (Hs2 & (new1 & Hl2 & Hn1) & _).
  assert (Forall (λ ev, ¬ fetches_key d k ev) new1) as Hnew1.
  { eapply Forall_impl; [exact Hn1|]. intros ev. by eapply fresh_fetch_other_key. }
  destruct (fetch_all net remote_db w1) as [w2|e w2]; simpl in *.
  - pose proof (publish_effect lib cfg net remote_db w2) as (_ & _ & new2 & Hl3 & Hn2).
    rewrite Hl3, Hl2, Hl1, <- app_assoc, drop_app_length.
    apply Forall_app. split; [done|].
    eapply Forall_impl; [exact Hn2|]. intros ev [view ->] (run & ? & _). done.
  - by rewrite Hl2, Hl1, drop_app_length.
Qed.

Lemma at_most_once_fetch_witness :
  Forall (λ ev, ¬ fetches_key "out/a" (Some "br1") ev)
    (since (length (log after_first_turn))
       (log (final (cycle sample_lib sample_cfg [source_a] net_done
                      after_first_turn)))).
Proof.
  apply at_most_once_fetch.
  - apply (reach_cycle _ _ _ net_done (start ∅)); [apply reach_start|].
    vm_compute. reflexivity.
  - exists run_done. split; [|split].
    + replace (snapshot (files after_first_turn) "out/a") with [run_done]
        by (vm_compute; reflexivity).
      left.
    + reflexivity.
    + exists "h"%char, "ttp://a/run1.json". split; [reflexivity|].
      vm_compute. reflexivity.
Defined.

(** ** A manifest that does not decode *)

Lemma fetch_remote_malformed net r w :
  net (url r) = Reply Malformed → fetch_remote net r w = Ok w.
Proof. intros H. unfold fetch_remote. by rewrite H. Qed.

(** C10.  When the manifest of a source is not JSON, [fetch_remote] returns
    with the world as it was: no file written, the seen state, the log of
    artifact fetches and the dirty flag all unchanged. *)
Theorem failed_decode_changes_nothing (net : string → reply) (r : remote)
    (w : world) :
  net (url r) = Reply Malformed →
  ∃ w', fetch_remote net r w = Ok w' ∧
        files w' = files w ∧ main_seen w' = main_seen w ∧
        log w' = log w ∧ fetched w' = fetched w.
Proof. intros H. exists w. by rewrite fetch_remote_malformed. Qed.

Lemma failed_decode_changes_nothing_witness :
  ∃ w', fetch_remote net_garbled source_a after_first_turn = Ok w' ∧
        files w' = files after_first_turn ∧
        main_seen w' = main_seen after_first_turn ∧
        log w' = log after_first_turn ∧ fetched w' = fetched after_first_turn.
Proof. apply failed_decode_changes_nothing. reflexivity. Defined.

Lemma fetch_all_app net l1 l2 w :
  fetch_all net (l1 ++ l2) w =
    match fetch_all net l1 w with
    | Ok w1 => fetch_all net l2 w1
    | Raise e w1 => Raise e w1
    end.
Proof.
  unfold fetch_all. revert w. induction l1 as [|r l1 IH]; intros w; simpl; [done|].
  destruct (fetch_remote net r w); [apply IH|done].
Qed.

(** C3 (as the code has it).  A manifest that is not JSON makes the fetcher
    skip that source and nothing else: the loop over the sources goes on as
    if the source were not listed, and a turn in which no source decodes,
    with no rebuild due, completes leaving the world as it was.  A source
    that cannot be reached is not contained: the exception leaves the loop
    at that source.  In the series poller, an incomplete series never ends
    the turn, and a failing request for the series ends it. *)
Theorem manifest_parse_error_is_contained :
  (∀ (net : string → reply) (r : remote),
     net (url r) = Reply Malformed →
     ∀ before after w,
       fetch_all net (before ++ r :: after) w = fetch_all net (before ++ after) w) ∧
  (∀ lib cfg (net : string → reply) remote_db w,
     (∀ r, r ∈ remote_db → net (url r) = Reply Malformed) → fetched w = false →
     cycle lib cfg remote_db net w = Ok w) ∧
  (∀ (net : string → reply) (r : remote),
     net (url r) = Unreachable →
     ∀ after w, fetch_all net (r :: after) w = Raise ConnectionError w) ∧
  (∀ st s st', PwPoller.observe st s ≠ Raise PwPoller.IncompleteSeries st') ∧
  (∀ p st,
     (∀ since, PwPoller.answer p since = None) →
     ∃ st', PwPoller.cycle p st = Raise PwPoller.ExternalError st').
Proof.
  split; [|split; [|split; [|split]]].
  - intros net r Hr before after w. rewrite !fetch_all_app.
    destruct (fetch_all net before w) as [w1|]; [|done].
    unfold fetch_all. simpl. by rewrite fetch_remote_malformed.
  - intros lib cfg net remote_db w Hall Hf. unfold cycle, rebuild. rewrite Hf.
    assert (fetch_all net remote_db w = Ok w) as ->.
    { unfold fetch_all. induction remote_db as [|r db IH]; simpl; [done|].
      rewrite fetch_remote_malformed by (apply Hall; left).
      apply IH. intros r' Hr'. apply Hall. by right. }
    unfold publish. by rewrite Hf.
  - intros net r Hr after w. unfold fetch_all. simpl. unfold fetch_remote.
    by rewrite Hr.
  - intros st s st'. unfold PwPoller.observe.
    by destruct (PwPoller.process_series _ s) as [sn|[] sn].
  - intros p st Ha. unfold PwPoller.cycle. destruct (PwPoller.schedule _ _ _).
    rewrite Ha. by eexists.
Qed.

Lemma manifest_parse_error_is_contained_witness :
  fetch_all net_garbled ([] ++ source_a :: [source_b]) after_first_turn =
    fetch_all net_garbled ([] ++ [source_b]) after_first_turn.
Proof.
  apply (proj1 manifest_parse_error_is_contained net_garbled source_a).
  reflexivity.
Defined.

(** C3 (as stated) fails for a network error.  Source a cannot be reached
    and source b answers with an empty manifest: the turn ends with
    ConnectionError at source a and source b is never asked, its snapshot
    never written.  With source a answering garbage instead, the turn
    completes and the snapshot of source b is written. *)
Lemma unreachable_source_ends_the_turn :
  ∃ w1 w2,
    cycle sample_lib sample_cfg [source_a; source_b] net_down (start ∅)
      = Raise ConnectionError w1 ∧
    files w1 !! ("out/b", "results.json") = None ∧
    cycle sample_lib sample_cfg [source_a; source_b] net_garbled (start ∅)
      = Ok w2 ∧
    files w2 !! ("out/b", "results.json") = Some (Whole (JList [])).
Proof.
  eexists. eexists. split; [vm_compute; reflexivity|].
  split; [reflexivity|]. split; [vm_compute; reflexivity|]. reflexivity.
Qed.

(** ** The dirty flag and the publication *)

Lemma fetch_run_fetched net rs w run w' :
  fetch_run net rs w run = Ok w' →
  (fetched w' = true ↔ fetched w = true ∨ news rs run).
Proof.
  unfold fetch_run, news.
  destruct (run !! "branch") as [b|] eqn:Eb; [|done].
  case_bool_decide as Hs.
  { intros [= <-]. split; [by left|]. intros [?|(b' & [= <-] & ? & _)]; done. }
  destruct (run !! "url") as [v|] eqn:Eu; [|done].
  rewrite (get_lookup _ _ _ Eu).
  assert (Ok (E:=exn) (set_fetched (fetched w || bool_decide (b ∉ wip rs)) w) = Ok w' →
          truthy v = false →
          (fetched w' = true ↔
           fetched w = true ∨
           ∃ b0, Some b = Some b0 ∧ (b0 ∉ seen rs) ∧ (truthy v = true ∨ b0 ∉ wip rs)))
    as Hwip.
  { intros [= <-] Hv. simpl. rewrite orb_true_iff, bool_decide_eq_true. split.
    - intros [?|?]; [by left|]. right. exists b. by repeat split; [|right].
    - intros [?|(b' & [= <-] & _ & [?|?])]; [by left|congruence|by right]. }
  destruct v as [[|c u]|]; [by intros; apply Hwip| |by intros; apply Hwip].
  destruct (fetch_remote_run _ _ _ _ _); [|done]. intros [= <-]. simpl.
  split; [|done]. intros _. right. exists b. by repeat split; [|left].
Qed.

Lemma fetch_runs_fetched net rs runs w w' :
  for_each (fetch_run net rs) runs w = Ok w' →
  (fetched w' = true ↔ fetched w = true ∨ ∃ run, run ∈ runs ∧ news rs run).
Proof.
  revert w. induction runs as [|run runs IH]; intros w; simpl.
  - intros [= <-]. split; [by left|]. intros [?|(run & Hr & _)]; [done|].
    by apply elem_of_nil in Hr.
  - destruct (fetch_run net rs w run) as [w1|] eqn:E1; [|done].
    intros Hloop. rewrite (IH _ Hloop), (fetch_run_fetched _ _ _ _ _ E1). split.
    + intros [[?|?]|(run' & ? & ?)]; [by left|right..].
      * exists run. split; [left|done].
      * exists run'. split; [by right|done].
    + intros [?|(run' & Hr & ?)]; [by left; left|].
      apply elem_of_cons in Hr as [->|?]; [by left; right|].
      right. by exists run'.
Qed.

Lemma fetch_remote_fetched net r w w' :
  fetch_remote net r w = Ok w' →
  (fetched w' = true ↔ fetched w = true ∨ signals net (main_seen w) r).
Proof.
  unfold fetch_remote, signals.
  destruct (net (url r)) as [|[| |manifest]] eqn:En; try done.
  { intros [= <-]. split; [by left|]. intros [?|(? & ? & ? & ? & ? & _)]; done. }
  destruct (main_seen w !! name r) as [rs|] eqn:Es; [|done].
  destruct (entries manifest) as [runs|] eqn:Ee; [|done].
  destruct (for_each _ runs w) as [w1|] eqn:Eloop; [|done].
  intros [= <-]. simpl. rewrite (fetch_runs_fetched _ _ _ _ _ Eloop). split.
  - intros [?|(run & ? & ?)]; [by left|]. right. by exists manifest, runs, rs, run.
  - intros [?|(m & rn & rs' & run & [= <-] & ? & ? & ? & ?)]; [by left|].
    simplify_eq. right. by exists run.
Qed.

Lemma fetch_all_fetched net remote_db w w' :
  fetch_all net remote_db w = Ok w' →
  (fetched w' = true ↔
   fetched w = true ∨ ∃ r, r ∈ remote_db ∧ signals net (main_seen w) r).
Proof.
  unfold fetch_all. revert w. induction remote_db as [|r db IH]; intros w; simpl.
  - intros [= <-]. split; [by left|]. intros [?|(r & Hr & _)]; [done|].
    by apply elem_of_nil in Hr.
  - destruct (fetch_remote net r w) as [w1|] eqn:E1; [|done].
    intros Hloop. rewrite (IH _ Hloop), (fetch_remote_fetched _ _ _ _ E1).
    pose proof (fetch_remote_effect net r w) as (Hs1 & _). rewrite E1 in Hs1.
    simpl in Hs1. rewrite Hs1. split.
    + intros [[?|?]|(r' & ? & ?)]; [by left|right..].
      * exists r. split; [left|done].
      * exists r'. split; [by right|done].
    + intros [?|(r' & Hr & ?)]; [by left; left|].
      apply elem_of_cons in Hr as [->|?]; [by left; right|].
      right. by exists r'.
Qed.

Lemma append_new_ne (s : string) : s +:+ ".new" ≠ s.
Proof. induction s as [|c s IH]; simpl; [done|]. intros [= H]. by apply IH. Qed.

Lemma tmp_path_ne p : tmp_path p ≠ p.
Proof.
  destruct p as [d b]. unfold tmp_path. simpl. intros [= H]. by apply append_new_ne in H.
Qed.

Lemma write_json_atomic_steps_spec p data fs :
  last (write_json_atomic_steps p data fs) = Some (write_json_atomic p data fs) ∧
  Forall (λ fs', fs' !! p = fs !! p ∨ fs' !! p = Some (Whole data))
    (write_json_atomic_steps p data fs) ∧
  write_json_atomic p data fs !! p = Some (Whole data).
Proof.
  pose proof (tmp_path_ne p) as Hne.
  assert (fs_rename (tmp_path p) p
            (fs_dump (tmp_path p) data (fs_open_w (tmp_path p) fs)) !! p
          = Some (Whole data)) as Hlast.
  { unfold fs_rename, fs_dump, fs_open_w. rewrite lookup_insert_eq.
    by rewrite lookup_insert_eq. }
  split; [done|]. split; [|done].
  unfold write_json_atomic_steps. rewrite !Forall_cons.
  split; [|split; [|split; [by right|constructor]]].
  - left. unfold fs_open_w. by rewrite lookup_insert_ne.
  - left. unfold fs_dump, fs_open_w. by rewrite !lookup_insert_ne.
Qed.

Lemma rebuild_clears cfg remote_db w w1 :
  rebuild cfg remote_db w = Ok w1 →
  fetched w1 = false ∧ log w1 = log w ∧ files w1 = files w.
Proof.
  unfold rebuild. destruct (fetched w) eqn:Ef.
  - destruct (build_seen _ _ _); [|done]. by intros [= <-].
  - by intros [= <-].
Qed.

Lemma rebuild_raises cfg remote_db w e w1 :
  rebuild cfg remote_db w = Raise e w1 → w1 = w.
Proof.
  unfold rebuild. destruct (fetched w); [|done].
  destruct (build_seen _ _ _); [done|]. by intros [= _ <-].
Qed.

Lemma fetch_all_publishes_nothing net remote_db w view :
  Published view ∉
    drop (length (log w)) (log (final (fetch_all net remote_db w))).
Proof.
  pose proof (fetch_all_effect net remote_db w) as (_ & (new & Hl & Hn) & _).
  rewrite Hl, drop_app_length. intros Hin. rewrite Forall_forall in Hn.
  by destruct (Hn _ Hin) as (? & ? & ? & ? & _ & ? & _).
Qed.

(** C5 (as the code has it).  In every turn, completed or not, a combined
    view is published exactly when the rebuild and the fetch of the turn
    returned, some source signalled new data in that fetch (a run that is
    not complete and brings an artifact, or that was not in progress
    either) and [build_combined] returned; the view is then what
    [build_combined] made of the disk the fetch left.  For a turn that
    completes this is: published exactly when some source signalled.  The
    publication goes from the disk the fetch left through the steps of
    [write_json_atomic]: after each of them the published path holds what
    it held when the fetch ended or the whole new view, and in the end the
    new view. *)
Theorem dirty_gated_atomic_publish (lib : datetime_lib) (cfg : config)
    (remote_db : list remote) (net : string → reply) (w : world) :
  (∀ view,
     Published view ∈
       since (length (log w)) (log (final (cycle lib cfg remote_db net w))) ↔
     ∃ w1 w2 results,
       rebuild cfg remote_db w = Ok w1 ∧ fetch_all net remote_db w1 = Ok w2 ∧
       (∃ r, r ∈ remote_db ∧ signals net (main_seen w1) r) ∧
       build_combined lib cfg net remote_db (files w2) = Ok results ∧
       view = JList results) ∧
  (∀ w', cycle lib cfg remote_db net w = Ok w' →
     ((∃ view, Published view ∈ since (length (log w)) (log w')) ↔
      (∃ r, r ∈ remote_db ∧ signals net (main_seen w') r))) ∧
  (∀ w1 w2,
     rebuild cfg remote_db w = Ok w1 → fetch_all net remote_db w1 = Ok w2 →
     files (final (cycle lib cfg remote_db net w))
       = default (files w2) (last (publish_steps lib cfg net remote_db w2)) ∧
     Forall (λ fs', fs' !! combined_path cfg = files w2 !! combined_path cfg ∨
                    ∃ results,
                      build_combined lib cfg net remote_db (files w2) = Ok results ∧
                      fs' !! combined_path cfg = Some (Whole (JList results)))
       (publish_steps lib cfg net remote_db w2) ∧
     (∀ view,
        Published view ∈
          since (length (log w)) (log (final (cycle lib cfg remote_db net w))) →
        files (final (cycle lib cfg remote_db net w)) !! combined_path cfg
          = Some (Whole view))).
Proof.
  unfold cycle, since.
  destruct (rebuild cfg remote_db w) as [w1|e w1] eqn:E1.
  2:{ apply rebuild_raises in E1 as ->. simpl. rewrite drop_all.
      split; [|split; [done|done]]. intros view. split.
      - by intros ?%elem_of_nil.
      - by intros (? & ? & ? & ? & _). }
  destruct (rebuild_clears _ _ _ _ E1) as (Hf1 & Hl1 & _).
  pose proof (fetch_all_publishes_nothing net remote_db w1) as Hnone.
  pose proof (fetch_all_effect net remote_db w1) as (Hs2 & (new1 & Hl2 & _) & _).
  rewrite Hl1 in Hnone.
  destruct (fetch_all net remote_db w1) as [w2|e w2] eqn:E2; simpl in *.
  2:{ split; [|split; [done|]].
      - intros view. split.
        + intros Hin. by apply Hnone in Hin.
        + intros (w0 & w3 & res & [= <-] & ? & _). congruence.
      - intros w0 w3 [= <-] ?. congruence. }
  pose proof (fetch_all_fetched _ _ _ _ E2) as Hsig. rewrite Hf1 in Hsig.
  assert (fetched w2 = true ↔ ∃ r, r ∈ remote_db ∧ signals net (main_seen w1) r)
    as Hgate.
  { rewrite Hsig. split; [by intros [?|?]|by right]. }
  clear Hsig.
  unfold publish, publish_steps. destruct (fetched w2) eqn:Ef2.
  - destruct (build_combined lib cfg net remote_db (files w2)) as [results|e x]
      eqn:Eb; simpl.
    + assert (drop (length (log w)) (log w2 ++ [Published (JList results)])
              = new1 ++ [Published (JList results)])%list as Hdrop.
      { by rewrite Hl2, Hl1, <- app_assoc, drop_app_length. }
      assert (∀ view, Published view ∈
                drop (length (log w)) (log w2 ++ [Published (JList results)])%list →
              view = JList results) as Hview.
      { intros view. rewrite Hdrop. intros [Hin|Hin]%elem_of_app.
        - exfalso. apply (Hnone view). by rewrite Hl2, Hl1, drop_app_length.
        - by apply list_elem_of_singleton in Hin as [= ->]. }
      destruct (write_json_atomic_steps_spec (combined_path cfg) (JList results)
                  (files w2)) as (Hlast & Hsteps & Hend).
      split; [|split].
      * intros view. split.
        -- intros ->%Hview. exists w1, w2, results. split; [done|]. split; [done|].
           split; [by apply Hgate|done].
        -- intros (w0 & w3 & res & [= <-] & Hfa & _ & Hres & ->).
           rewrite E2 in Hfa. injection Hfa as <-.
           rewrite Eb in Hres. injection Hres as <-.
           rewrite Hdrop. apply elem_of_app. right. left.
      * intros w' [= <-]. simpl. rewrite Hs2. split.
        -- intros _. by apply Hgate.
        -- intros _. exists (JList results). rewrite Hdrop. apply elem_of_app.
           right. left.
      * intros w0 w3 [= <-] Hfa. rewrite E2 in Hfa. injection Hfa as <-.
        rewrite ?Ef2, ?Eb. cbv iota. rewrite Hlast. split; [done|]. split.
        -- eapply Forall_impl; [exact Hsteps|]. intros fs' [?|?]; [by left|right].
           by exists results.
        -- by intros view ->%Hview.
    + split; [|split; [done|]].
      * intros view. split.
        -- intros Hin. by apply Hnone in Hin.
        -- intros (w0 & w3 & res & [= <-] & Hfa & _ & Hres & _).
           rewrite E2 in Hfa. injection Hfa as <-. congruence.
      * intros w0 w3 [= <-] Hfa. rewrite E2 in Hfa. injection Hfa as <-.
        rewrite ?Ef2, ?Eb. cbv iota. split; [done|].
        split; [constructor|]. intros view Hin. by apply Hnone in Hin.
  - simpl. split; [|split].
    + intros view. split.
      * intros Hin. by apply Hnone in Hin.
      * intros (w0 & w3 & res & [= <-] & _ & Hr & _). apply Hgate in Hr.
        congruence.
    + intros w' [= <-]. rewrite Hs2. split.
      * intros [view Hin]. by apply Hnone in Hin.
      * intros Hr. apply Hgate in Hr. congruence.
    + intros w0 w3 [= <-] Hfa. rewrite E2 in Hfa. injection Hfa as <-.
      rewrite ?Ef2. cbv iota. split; [done|].
      split; [constructor|]. intros view Hin. by apply Hnone in Hin.
Qed.

Lemma dirty_gated_atomic_publish_witness :
  (∃ view, Published view ∈ since (length (log (start ∅))) (log after_first_turn)) ↔
  (∃ r, r ∈ [source_a] ∧ signals net_done (main_seen after_first_turn) r).
Proof.
  apply (proj1 (proj2 (dirty_gated_atomic_publish sample_lib sample_cfg [source_a]
                         net_done (start ∅)))).
  vm_compute. reflexivity.
Defined.

(** C5 (as stated) fails for a turn that does not complete.  Source a
    lists br1 with its artifact, which is new, and the artifact is fetched;
    the branch feed cannot be reached, so [build_combined] raises: the turn
    ends there, nothing is published and the published path stays empty. *)
Lemma signalled_turn_publishes_nothing :
  ∃ w1 w',
    rebuild sample_cfg [source_a] (start ∅) = Ok w1 ∧
    signals net_no_feed (main_seen w1) source_a ∧
    cycle sample_lib sample_cfg [source_a] net_no_feed (start ∅)
      = Raise ConnectionError w' ∧
    log w' = [FetchRun "out/a" run_done] ∧
    fetched w' = true ∧
    files w' !! combined_path sample_cfg = None.
Proof.
  eexists. eexists. split; [vm_compute; reflexivity|].
  split; [|split; [vm_compute; reflexivity|]].
  - exists (JList [run_done]), [run_done], state_a_blank, run_done.
    split; [reflexivity|]. split; [reflexivity|]. split; [vm_compute; reflexivity|].
    split; [left|]. exists (Some "br1"). split; [reflexivity|].
    split; [apply not_elem_of_empty|by left].
  - split; [reflexivity|]. split; reflexivity.
Qed.

(** ** Keys that stay complete *)


Lemma cycle_seen lib cfg remote_db net w w' :
  cycle lib cfg remote_db net w = Ok w' →
  ∃ w1, rebuild cfg remote_db w = Ok w1 ∧ main_seen w' = main_seen w1.
Proof.
  unfold cycle. destruct (rebuild cfg remote_db w) as [w1|] eqn:E1; [|done].
  destruct (fetch_all net remote_db w1) as [w2|] eqn:E2; [|done].
  intros Hp. exists w1. split; [done|].
  pose proof (fetch_all_effect net remote_db w1) as (Hs2 & _). rewrite E2 in Hs2.
  pose proof (publish_effect lib cfg net remote_db w2) as (_ & Hs3 & _).
  rewrite Hp in Hs3. simpl in *. congruence.
Qed.














End ResultsFetcherProps.

(** * Further properties of the results fetcher *)

Module ResultsFetcherExtras.
Import ResultsFetcher ResultsFetcherProps.
Local Open Scope string_scope.

(** ** Writing the published file *)

(** X1.  [write_json_atomic] leaves the whole document under the published
    name, no file under the temporary name (whether or not one was lying
    there before), and every other file as it was. *)
Theorem write_json_atomic_frame (p : string * string) (data : json)
    (fs : gmap (string * string) file) :
  write_json_atomic p data fs !! p = Some (Whole data) ∧
  write_json_atomic p data fs !! tmp_path p = None ∧
  (∀ q, q ≠ p → q ≠ tmp_path p → write_json_atomic p data fs !! q = fs !! q).
Proof.
  pose proof (tmp_path_ne p) as Hne.
  unfold write_json_atomic, fs_rename.
  rewrite write_json_lookup, decide_True by done.
  split; [by rewrite lookup_insert_eq|]. split.
  - rewrite lookup_insert_ne by done. by rewrite lookup_delete_eq.
  - intros q Hq Hq'. rewrite lookup_insert_ne by done.
    rewrite lookup_delete_ne by done.
    by rewrite write_json_lookup, decide_False.
Qed.

(** ** The rebuild *)

Lemma build_seen_remote_ok cfg fs sn r :
  (∃ sn', build_seen_remote cfg fs sn r = Ok sn') ↔
  readable fs (path_join (output_dir cfg) (name r)).
Proof.
  unfold build_seen_remote, readable.
  destruct (fs !! (path_join (output_dir cfg) (name r), "results.json"))
    as [[results|]|].
  - destruct (entries results) as [es|]; split.
    + by eexists.
    + by eexists.
    + by intros [? ?].
    + by intros [? ?].
  - split; [by intros [? ?]|done].
  - split; [done|by eexists].
Qed.

Lemma build_seen_loop_ok cfg fs remote_db sn :
  (∃ sn', for_each (build_seen_remote cfg fs) remote_db sn = Ok sn') ↔
  ∀ r, r ∈ remote_db → readable fs (path_join (output_dir cfg) (name r)).
Proof.
  revert sn. induction remote_db as [|r db IH]; intros sn; simpl.
  - split; [|by eexists]. intros _ r Hr. by apply elem_of_nil in Hr.
  - pose proof (build_seen_remote_ok cfg fs sn r) as Hr.
    destruct (build_seen_remote cfg fs sn r) as [sn1|e sn1].
    + rewrite IH. split.
      * intros Hdb r' Hr'. apply elem_of_cons in Hr' as [->|?]; [|by apply Hdb].
        apply Hr. by eexists.
      * intros Hall r' Hr'. apply Hall. by right.
    + split; [by intros [? ?]|]. intros Hall.
      destruct Hr as [_ Hr]. destruct Hr as [? ?]; [|done]. apply Hall. left.
Qed.

(** X2.  [build_seen] returns exactly when the snapshot file of every
    listed source is missing or holds a document that can be gone through
    (an array, or the empty object); a snapshot cut short by a crash, or one
    holding an object, makes it raise. *)
Theorem build_seen_succeeds (cfg : config) (remote_db : list remote)
    (fs : gmap (string * string) file) :
  (∃ sn, build_seen cfg remote_db fs = Ok sn) ↔
  (∀ r, r ∈ remote_db → readable fs (path_join (output_dir cfg) (name r))).
Proof. apply build_seen_loop_ok. Qed.

Lemma build_seen_remote_shape cfg fs sn r sn' :
  build_seen_remote cfg fs sn r = Ok sn' →
  (∀ n, is_Some (sn' !! n) ↔ n = name r ∨ is_Some (sn !! n)) ∧
  (∀ n rs, sn' !! n = Some rs →
     (n = name r ∧ served rs = url_pfx cfg +:+ "/" +:+ n) ∨ sn !! n = Some rs).
Proof.
  unfold build_seen_remote.
  set (fresh := {| seen := ∅; wip := ∅; dir := _; served := _ |}).
  assert (∀ rs : remote_state, served rs = served fresh →
    (∀ n, is_Some (<[name r := rs]> sn !! n) ↔ n = name r ∨ is_Some (sn !! n)) ∧
    (∀ n rs', <[name r := rs]> sn !! n = Some rs' →
       (n = name r ∧ served rs' = url_pfx cfg +:+ "/" +:+ n) ∨ sn !! n = Some rs'))
    as Hins.
  { intros rs Hrs. split.
    - intros n. destruct (decide (name r = n)) as [<-|Hne].
      + rewrite lookup_insert_eq. split; [by left|by eexists].
      + rewrite lookup_insert_ne by done. split; [by right|].
        intros [?|?]; [congruence|done].
    - intros n rs'. destruct (decide (name r = n)) as [<-|Hne].
      + rewrite lookup_insert_eq. intros [= <-]. left. by rewrite Hrs.
      + rewrite lookup_insert_ne by done. by right. }
  destruct (fs !! _) as [[results|]|]; [|done|].
  - destruct (entries results) as [es|]; [|done]. intros [= <-].
    rewrite insert_insert_eq. apply Hins.
    clear Hins. generalize fresh. induction es as [|e es IH]; intros rs0; simpl; [done|].
    rewrite IH. unfold build_seen_entry.
    destruct (get "url" e) as [[|c u]|]; try done. by destruct (path_exists _ _ _).
  - intros [= <-]. by apply Hins.
Qed.

(** X3.  The seen state [build_seen] returns has one entry per source name
    of the remote_db and no other; each entry serves under the URL prefix
    followed by its name, sits in the output directory joined with its
    name, and has both sets empty when the source has no snapshot entries
    (a cold start is not an error). *)
Theorem build_seen_shape (cfg : config) (remote_db : list remote)
    (fs : gmap (string * string) file) (sn : gmap string remote_state) :
  build_seen cfg remote_db fs = Ok sn →
  (∀ n, is_Some (sn !! n) ↔ ∃ r, r ∈ remote_db ∧ name r = n) ∧
  (∀ n rs, sn !! n = Some rs →
     dir rs = path_join (output_dir cfg) n ∧
     served rs = url_pfx cfg +:+ "/" +:+ n ∧
     (snapshot fs (dir rs) = [] → seen rs = ∅ ∧ wip rs = ∅)).
Proof.
  intros Hb. pose proof (build_seen_rebuilt _ _ _ _ Hb) as [Hsn _].
  assert (∀ db sn0 sn1,
    for_each (build_seen_remote cfg fs) db sn0 = Ok sn1 →
    (∀ n, is_Some (sn1 !! n) ↔ (∃ r, r ∈ db ∧ name r = n) ∨ is_Some (sn0 !! n)) ∧
    (∀ n rs, sn1 !! n = Some rs →
       served rs = url_pfx cfg +:+ "/" +:+ n ∨ sn0 !! n = Some rs)) as Hloop.
  { induction db as [|r db IH]; intros sn0 sn1; simpl.
    - intros [= <-]. split; [|by right]. intros n. split; [by right|].
      intros [(r & Hr & _)|?]; [by apply elem_of_nil in Hr|done].
    - destruct (build_seen_remote cfg fs sn0 r) as [sn'|] eqn:E1; [|done].
      intros Hrest. destruct (build_seen_remote_shape _ _ _ _ _ E1) as [Hk1 Hs1].
      destruct (IH _ _ Hrest) as [Hk Hs]. split.
      + intros n. rewrite Hk, Hk1. split.
        * intros [(r' & ? & ?)|[->|?]]; [left|left|by right].
          -- exists r'. split; [by right|done].
          -- exists r. split; [left|done].
        * intros [(r' & Hr' & ?)|?]; [|by right; right].
          apply elem_of_cons in Hr' as [->|?]; [by right; left|].
          left. by exists r'.
      + intros n rs Hn. destruct (Hs _ _ Hn) as [?|Hn']; [by left|].
        destruct (Hs1 _ _ Hn') as [[_ ?]|?]; [by left|by right]. }
  destruct (Hloop _ _ _ Hb) as [Hk Hs]. split.
  - intros n. rewrite Hk. split; [|by left].
    intros [?|Hn]; [done|]. rewrite lookup_empty in Hn. by destruct Hn.
  - intros n rs Hn. destruct (Hsn _ _ Hn) as (Hd & Hseen & Hwip).
    split; [done|]. split.
    + destruct (Hs _ _ Hn) as [?|Hn']; [done|]. by rewrite lookup_empty in Hn'.
    + intros Hnil. split; apply set_eq; intros k.
      * rewrite Hseen. split; [|by intros ?%not_elem_of_empty].
        intros Hk'. by apply complete_in_nil in Hk'.
      * rewrite Hwip. split; [|by intros ?%not_elem_of_empty].
        intros Hk'. by apply pending_in_nil in Hk'.
Qed.

Lemma build_seen_shape_witness :
  (∀ n, is_Some (({["a" := state_a_blank]} : gmap string remote_state) !! n) ↔
        ∃ r, r ∈ [source_a] ∧ name r = n) ∧
  (∀ n rs, ({["a" := state_a_blank]} : gmap string remote_state) !! n = Some rs →
     dir rs = path_join (output_dir sample_cfg) n ∧
     served rs = url_pfx sample_cfg +:+ "/" +:+ n ∧
     (snapshot disk_dangling (dir rs) = [] → seen rs = ∅ ∧ wip rs = ∅)).
Proof.
  apply (build_seen_shape sample_cfg [source_a] disk_dangling).
  vm_compute. reflexivity.
Defined.

(** ** What a fetch fetches *)





(** ** The bookkeeping of a turn *)

(** X5.  When a turn completes, the dirty flag is left set exactly when the
    turn published a combined view (it is cleared by the rebuild of the next
    turn, not by the publication); and the seen state it ends with is the
    one it started with when no rebuild was due, the one [build_seen] gives
    over the disk found at its start otherwise, whatever was fetched in
    between. *)
Theorem turn_bookkeeping (lib : datetime_lib) (cfg : config)
    (remote_db : list remote) (net : string → reply) (w w' : world) :
  cycle lib cfg remote_db net w = Ok w' →
  (fetched w' = true ↔
   ∃ view, Published view ∈ since (length (log w)) (log w')) ∧
  (fetched w = false → main_seen w' = main_seen w) ∧
  (fetched w = true → build_seen cfg remote_db (files w) = Ok (main_seen w')).
Proof.
  intros Hc. pose proof (cycle_seen _ _ _ _ _ _ Hc) as (w1' & E1' & Hs').
  unfold cycle in Hc.
  destruct (rebuild cfg remote_db w) as [w1|] eqn:E1; [|done]. injection E1' as <-.
  destruct (fetch_all net remote_db w1) as [w2|] eqn:E2; [|done].
  destruct (rebuild_clears _ _ _ _ E1) as (_ & Hl1 & _).
  pose proof (fetch_all_effect net remote_db w1) as (_ & (new1 & Hl2 & Hn1) & _).
  rewrite E2 in Hl2. simpl in Hl2.
  assert (∀ view, Published view ∉ new1) as Hnone.
  { intros view Hin. rewrite Forall_forall in Hn1.
    by destruct (Hn1 _ Hin) as (? & ? & ? & ? & _ & ? & _). }
  split; [|split].
  - unfold publish in Hc. unfold since. destruct (fetched w2) eqn:Ef2.
    + destruct (build_combined _ _ _ _ _) as [results|]; [|done].
      injection Hc as <-. simpl.
      rewrite Hl2, Hl1, <- app_assoc, drop_app_length. split; [|done].
      intros _. exists (JList results). apply elem_of_app. right. left.
    + injection Hc as <-. rewrite Ef2, Hl2, Hl1, drop_app_length.
      split; [done|]. intros [view Hin]. by apply Hnone in Hin.
  - intros Hf. unfold rebuild in E1. rewrite Hf in E1. injection E1 as <-. done.
  - intros Hf. unfold rebuild in E1. rewrite Hf in E1.
    destruct (build_seen cfg remote_db (files w)) as [sn|]; [|done].
    injection E1 as <-. by rewrite Hs'.
Qed.

Lemma turn_bookkeeping_witness :
  (fetched after_first_turn = true ↔
   ∃ view, Published view ∈ since (length (log (start ∅))) (log after_first_turn)) ∧
  (fetched (start ∅) = false → main_seen after_first_turn = main_seen (start ∅)) ∧
  (fetched (start ∅) = true →
   build_seen sample_cfg [source_a] (files (start ∅)) = Ok (main_seen after_first_turn)).
Proof.
  apply (turn_bookkeeping sample_lib sample_cfg [source_a] net_done).
  vm_compute. reflexivity.
Defined.

(** ** A disk that holds what the sources say *)

Lemma write_json_same p data fs :
  fs !! p = Some (Whole data) → write_json p data fs = fs.
Proof.
  intros Hp. apply map_eq. intros q. rewrite write_json_lookup.
  case_decide; [by subst|done].
Qed.

Lemma fetch_runs_settled net rs fs runs w :
  (∀ k, k ∈ seen rs ↔ complete_in fs (dir rs) k) →
  (∀ k, k ∈ wip rs ↔ pending_in fs (dir rs) k) →
  snapshot fs (dir rs) = runs →
  ∀ l, (∀ run, run ∈ l → run ∈ runs) →
  (∀ run, run ∈ l →
     is_Some (run !! "branch") ∧
     (has_artifact fs (dir rs) run ∨
      (is_Some (run !! "url") ∧ truthy (get "url" run) = false))) →
  for_each (fetch_run net rs) l w = Ok w.
Proof.
  intros Hseen Hwip Hsnap l. induction l as [|run l IH]; intros Hsub Hl; simpl; [done|].
  assert (fetch_run net rs w run = Ok w) as ->.
  { destruct (Hl run) as [[b Eb] Hrun]; [left|]. unfold fetch_run. rewrite Eb.
    assert (run ∈ snapshot fs (dir rs)) as Hin by (rewrite Hsnap; apply Hsub; left).
    case_bool_decide as Hs; [done|].
    destruct Hrun as [Ha|[[v Eu] Hv]].
    - exfalso. apply Hs, Hseen. exists run. by rewrite (get_lookup _ _ _ Eb).
    - rewrite Eu. rewrite (get_lookup _ _ _ Eu) in Hv.
      assert (b ∈ wip rs) as Hb.
      { apply Hwip. exists run.
        by rewrite (get_lookup _ _ _ Eb), (get_lookup _ _ _ Eu). }
      rewrite (bool_decide_eq_false_2 (b ∉ wip rs)) by auto.
      rewrite orb_false_r, set_fetched_same.
      by destruct v as [[|c u]|]. }
  apply IH.
  - intros run' ?. apply Hsub. by right.
  - intros run' ?. apply Hl. by right.
Qed.

Lemma fetch_all_settled cfg remote_db net w :
  rebuilt cfg (files w) (main_seen w) →
  settled cfg remote_db net (files w) →
  ∀ l, (∀ r, r ∈ l → r ∈ remote_db ∧ is_Some (main_seen w !! name r)) →
  fetch_all net l w = Ok w.
Proof.
  intros Hsn Hset l. unfold fetch_all.
  induction l as [|r l IH]; intros Hl; simpl; [done|].
  assert (fetch_remote net r w = Ok w) as ->.
  { destruct (Hl r) as [Hr [rs Es]]; [left|].
    destruct (Hset r Hr) as (manifest & runs & Hnet & Hfile & He & Hruns).
    destruct (Hsn _ _ Es) as (Hd & Hseen & Hwip). rewrite <- Hd in *.
    unfold fetch_remote. rewrite Hnet, Es, He.
    rewrite (fetch_runs_settled net rs (files w) runs w Hseen Hwip); try done.
    - rewrite write_json_same by done. by destruct w.
    - by eapply snapshot_whole. }
  apply IH. intros r' ?. apply Hl. by right.
Qed.

(** X6.  A turn in which a rebuild is due (the first turn after a start
    above all) and which finds on disk what the sources answer, for every
    source its manifest as the snapshot, every run with its key and either
    its artifact on disk or an empty artifact reference, completes without
    fetching an artifact, without publishing and without changing a file;
    and from then on every turn with the same answers leaves the world
    exactly as it is. *)
Theorem settled_turn_is_idle (lib : datetime_lib) (cfg : config)
    (remote_db : list remote) (net : string → reply) (w : world) :
  fetched w = true → settled cfg remote_db net (files w) →
  ∃ w', cycle lib cfg remote_db net w = Ok w' ∧
        files w' = files w ∧ log w' = log w ∧ fetched w' = false ∧
        cycle lib cfg remote_db net w' = Ok w'.
Proof.
  intros Hf Hset.
  destruct (proj2 (build_seen_loop_ok cfg (files w) remote_db ∅)) as [sn Hb].
  { intros r Hr. destruct (Hset r Hr) as (manifest & runs & _ & Hfile & He & _).
    unfold readable. rewrite Hfile, He. by eexists. }
  fold (build_seen cfg remote_db (files w)) in Hb.
  destruct (build_seen_rebuilt _ _ _ _ Hb) as [Hsn Hdb].
  set (w1 := set_fetched false (set_seen sn w)).
  assert (fetch_all net remote_db w1 = Ok w1) as Hfetch.
  { apply (fetch_all_settled cfg remote_db); [done|done|]. intros r Hr. split; [done|].
    by apply Hdb. }
  exists w1. split; [|split; [done|split; [done|split; [done|]]]].
  - unfold cycle, rebuild. rewrite Hf, Hb. fold w1. rewrite Hfetch. done.
  - unfold cycle, rebuild. simpl. rewrite Hfetch. done.
Qed.

Lemma settled_turn_is_idle_witness :
  ∃ w', cycle sample_lib sample_cfg [source_a] net_done after_first_turn = Ok w' ∧
        files w' = files after_first_turn ∧ log w' = log after_first_turn ∧
        fetched w' = false ∧
        cycle sample_lib sample_cfg [source_a] net_done w' = Ok w'.
Proof.
  apply settled_turn_is_idle; [reflexivity|].
  intros r Hr. apply list_elem_of_singleton in Hr as ->.
  exists (JList [run_done]), [run_done].
  split; [reflexivity|]. split; [vm_compute; reflexivity|]. split; [reflexivity|].
  intros run Hrun. apply list_elem_of_singleton in Hrun as ->.
  split; [by eexists|]. left.
  exists "h"%char, "ttp://a/run1.json". split; [reflexivity|].
  vm_compute. reflexivity.
Defined.

(** ** The combined view *)

Lemma index_branch_loop brs info info' :
  for_each index_branch brs info = Ok info' →
  ∀ b br, info' !! b = Some br →
    (br ∈ brs ∧ br !! "branch" = Some b) ∨ info !! b = Some br.
Proof.
  revert info. induction brs as [|x brs IH]; intros info; simpl.
  - intros [= <-]. by right.
  - destruct (index_branch info x) as [info1|] eqn:E1; [|done].
    unfold index_branch in E1. destruct (x !! "branch") as [bx|] eqn:Ex; [|done].
    injection E1 as <-. intros Hrest b br Hb. destruct (IH _ Hrest b br Hb) as [[? ?]|Hl].
    + left. split; [by right|done].
    + destruct (decide (bx = b)) as [->|Hne].
      * rewrite lookup_insert_eq in Hl. injection Hl as <-. left. split; [left|done].
      * rewrite lookup_insert_ne in Hl by done. by right.
Qed.

Lemma combine_entry_records lib fs info brs d nm acc e acc' (P : gmap string (option string) → Prop) :
  (∀ b br, info !! b = Some br → br ∈ brs ∧ br !! "branch" = Some b) →
  (∀ rec, loaded_from fs d nm e rec ∨ provisional_from lib brs nm e rec → P rec) →
  combine_entry lib fs info d nm acc e = Ok acc' →
  Forall P acc → Forall P acc'.
Proof.
  intros Hinfo HP. unfold combine_entry.
  destruct (e !! "url") as [v|] eqn:Eu; [|done].
  assert (∀ acc0, match e !! "branch" with
    | Some b => match info !! b with
        | Some br => match br !! "date" with
            | Some (Some date) => match fromisoformat lib date with
                | Some when =>
                    Ok (E:=exn) (acc ++ [<["remote" := Some nm]>
                      (<["results" := None]>
                         (<["end" := Some (datetime_str lib (when + nominal_duration)%Z)]>
                            (<["start" := Some (datetime_str lib when)]> e)))])%list
                | None => Raise ValueError acc
                end
            | Some None => Raise TypeError acc
            | None => Raise KeyError acc
            end
        | None => Ok acc
        end
    | None => Raise KeyError acc
    end = Ok acc0 → truthy v = false → Forall P acc → Forall P acc0) as Hprov.
  { intros acc0. destruct (e !! "branch") as [b|] eqn:Eb; [|done].
    destruct (info !! b) as [br|] eqn:Ei; [|by intros [= <-]].
    destruct (br !! "date") as [[date|]|] eqn:Ed; [|done|done].
    destruct (fromisoformat lib date) as [when|] eqn:Ew; [|done].
    intros [= <-] Hv Hacc. apply Forall_app. split; [done|]. repeat constructor.
    apply HP. right. destruct (Hinfo _ _ Ei) as [? ?].
    exists b, br, date, when. by rewrite (get_lookup _ _ _ Eu). }
  destruct v as [[|c u]|]; [by intros; eapply Hprov| |by intros; eapply Hprov].
  destruct (target_of d (basename (String c u))); [|done|by intros [= <-]].
  destruct (fs !! (d, basename (String c u))) as [[[l|data]|]|] eqn:Ef; try done.
  - intros [= <-] Hacc. apply Forall_app. split; [done|]. repeat constructor.
    apply HP. left. by exists c, u, data.
  - by intros [= <-].
Qed.

Lemma combine_entries_records lib fs info brs d nm es acc acc' (P : gmap string (option string) → Prop) :
  (∀ b br, info !! b = Some br → br ∈ brs ∧ br !! "branch" = Some b) →
  (∀ e rec, e ∈ es →
     loaded_from fs d nm e rec ∨ provisional_from lib brs nm e rec → P rec) →
  for_each (combine_entry lib fs info d nm) es acc = Ok acc' →
  Forall P acc → Forall P acc'.
Proof.
  intros Hinfo. revert acc. induction es as [|e es IH]; intros acc HP; simpl.
  - by intros [= <-].
  - destruct (combine_entry lib fs info d nm acc e) as [acc1|] eqn:E1; [|done].
    intros Hrest Hacc. apply (IH acc1); [|done|].
    + intros e' rec ?. apply HP. by right.
    + eapply combine_entry_records; [done| |done|done]. intros rec. apply HP. left.
Qed.

(** X7.  Every record of the combined view [build_combined] returns comes
    from an entry of the snapshot of a listed source and carries the name
    of that source: it is the artifact of the entry as found on disk, or,
    for an entry without artifact whose branch the branch feed lists with a
    date, the entry with that start, an end two hours and 58 minutes later
    and no results.  Entries whose artifact file is missing and running
    entries unknown to the feed give no record. *)
Theorem build_combined_records (lib : datetime_lib) (cfg : config)
    (net : string → reply) (remote_db : list remote)
    (fs : gmap (string * string) file)
    (results : list (gmap string (option string))) :
  build_combined lib cfg net remote_db fs = Ok results →
  ∃ branches brs,
    net (branch_url cfg) = Reply (Parsed branches) ∧ entries branches = Some brs ∧
    ∀ rec, rec ∈ results →
      ∃ r e, r ∈ remote_db ∧
             e ∈ snapshot fs (path_join (output_dir cfg) (name r)) ∧
             rec !! "remote" = Some (Some (name r)) ∧
             (loaded_from fs (path_join (output_dir cfg) (name r)) (name r) e rec ∨
              provisional_from lib brs (name r) e rec).
Proof.
  unfold build_combined.
  destruct (net (branch_url cfg)) as [|[| |branches]]; try done.
  destruct (entries branches) as [brs|] eqn:Eb; [|done].
  destruct (for_each index_branch brs ∅) as [info|] eqn:Ei; [|done].
  intros Hloop. exists branches, brs. split; [done|]. split; [done|].
  assert (∀ b br, info !! b = Some br → br ∈ brs ∧ br !! "branch" = Some b) as Hinfo.
  { intros b br Hb. destruct (index_branch_loop _ _ _ Ei b br Hb) as [?|Hl]; [done|].
    by rewrite lookup_empty in Hl. }
  set (P := λ rec : gmap string (option string),
    ∃ r e, r ∈ remote_db ∧
           e ∈ snapshot fs (path_join (output_dir cfg) (name r)) ∧
           rec !! "remote" = Some (Some (name r)) ∧
           (loaded_from fs (path_join (output_dir cfg) (name r)) (name r) e rec ∨
            provisional_from lib brs (name r) e rec)).
  assert (∀ l acc acc', (∀ r, r ∈ l → r ∈ remote_db) →
            for_each (combine_remote lib cfg fs info) l acc = Ok acc' →
            Forall P acc → Forall P acc') as Hall.
  { induction l as [|r l IH]; intros acc acc' Hsub; simpl; [by intros [= <-]|].
    destruct (combine_remote lib cfg fs info acc r) as [acc1|] eqn:E1; [|done].
    intros Hrest Hacc. apply (IH acc1); [by intros r' ?; apply Hsub; right|done|].
    unfold combine_remote in E1.
    destruct (fs !! (path_join (output_dir cfg) (name r), "results.json"))
      as [[res|]|] eqn:Ef; [|done|by injection E1 as <-].
    destruct (entries res) as [es|] eqn:Ee; [|done].
    eapply combine_entries_records; [exact Hinfo| |exact E1|exact Hacc].
    intros e rec He Hrec. exists r, e. split; [apply Hsub; left|].
    split; [by erewrite snapshot_whole|]. split; [|done].
    destruct Hrec as [(? & ? & ? & _ & _ & ->)|(? & ? & ? & ? & _ & _ & _ & _ & _ & _ & ->)];
      by rewrite lookup_insert_eq. }
  intros rec Hrec.
  pose proof (Hall remote_db [] results (λ _ H, H) Hloop (Forall_nil_2 _)) as HP.
  rewrite Forall_forall in HP. by apply HP.
Qed.

Lemma build_combined_records_witness :
  ∃ branches brs,
    net_feed (branch_url sample_cfg) = Reply (Parsed branches) ∧
    entries branches = Some brs ∧
    ∀ rec, rec ∈ sample_view →
      ∃ r e, r ∈ [source_a] ∧
             e ∈ snapshot disk_mixed (path_join (output_dir sample_cfg) (name r)) ∧
             rec !! "remote" = Some (Some (name r)) ∧
             (loaded_from disk_mixed (path_join (output_dir sample_cfg) (name r))
                (name r) e rec ∨
              provisional_from sample_lib brs (name r) e rec).
Proof.
  apply (build_combined_records sample_lib sample_cfg net_feed [source_a] disk_mixed).
  vm_compute. reflexivity.
Defined.

(** The sample view has both kinds of record, in snapshot order. *)
Example sample_view_records :
  sample_view =
    [ <["remote" := Some "a"]> (<["results" := Some "pass"]> ∅);
      <["remote" := Some "a"]>
        (<["results" := None]>
           (<["end" := Some "2024-01-01 00:00:00"]>
              (<["start" := Some "2024-01-01 00:00:00"]> run_other))) ].
Proof. vm_compute. reflexivity. Qed.
End ResultsFetcherExtras.

(** * Further properties of the patchwork poller *)

Module PwPollerExtras.
Import PwPoller PwPollerProps.

(** ** What a turn does to the seen set *)

Lemma observe_seen (st : state) (s : pw_series) (st' : state) :
  observe st s = Ok st' →
  seen_series st ⊆ seen_series st' ∧
  this_poll_seen st ⊆ this_poll_seen st' ∧
  (∀ i, i ∈ seen_series st' →
     i ∈ seen_series st ∨ (i = id s ∧ received_all s = true)) ∧
  (∀ i, i ∈ this_poll_seen st' →
     i ∈ this_poll_seen st ∨
     (i = id s ∧ (id s ∈ seen_series st ∨ received_all s = true))) ∧
  (received_all s = true ∨ id s ∈ seen_series st → id s ∈ this_poll_seen st') ∧
  prev_big_scan st' = prev_big_scan st ∧ prev_req_time st' = prev_req_time st.
Proof.
  assert (∀ (X : gset Z) i, X ⊆ {[i]} ∪ X) as Hsub.
  { intros X i. apply union_subseteq_r. }
  assert (∀ (X : gset Z) i, i ∈ {[i]} ∪ X) as Hin.
  { intros X i. apply elem_of_union. left. by apply elem_of_singleton. }
  assert (∀ (X : gset Z) i j (Q : Prop), Q → j ∈ {[i]} ∪ X → j ∈ X ∨ (j = i ∧ Q))
    as Hcase.
  { intros X i j Q HQ Hj. apply elem_of_union in Hj as [->%elem_of_singleton|?];
      [by right|by left]. }
  unfold observe, process_series. case_bool_decide as Hs.
  - intros [= <-]. simpl. split_and!; try done.
    + by left.
    + intros i. apply Hcase. by left.
  - destruct (loads s); simpl; [|done].
    destruct (received_all s) eqn:Er; simpl.
    + destruct (tester s); try done; intros [= <-]; simpl;
        (split_and!; try done; [intros i; by apply Hcase|intros i; apply Hcase; by right]).
    + intros [= <-]. simpl. split_and!; try done; try by left.
      intros [?|?]; done.
Qed.

Lemma observe_all_seen (resp : list pw_series) (st st' : state) :
  for_each observe resp st = Ok st' →
  seen_series st ⊆ seen_series st' ∧
  this_poll_seen st ⊆ this_poll_seen st' ∧
  (∀ i, i ∈ seen_series st' →
     i ∈ seen_series st ∨ ∃ s, s ∈ resp ∧ id s = i ∧ received_all s = true) ∧
  (∀ i, i ∈ this_poll_seen st' →
     i ∈ this_poll_seen st ∨
     ∃ s, s ∈ resp ∧ id s = i ∧ (i ∈ seen_series st ∨ received_all s = true)) ∧
  (∀ s, s ∈ resp → received_all s = true ∨ id s ∈ seen_series st →
     id s ∈ this_poll_seen st') ∧
  prev_big_scan st' = prev_big_scan st ∧ prev_req_time st' = prev_req_time st.
Proof.
  revert st. induction resp as [|s resp IH]; intros st; simpl.
  - intros [= <-]. repeat split; try done; try by left.
    intros s Hs. by apply elem_of_nil in Hs.
  - destruct (observe st s) as [st1|] eqn:E1; [|done]. intros Hrest.
    destruct (observe_seen _ _ _ E1) as (Hs1 & Ht1 & Hn1 & Hp1 & Ha1 & Hb1 & Hr1).
    destruct (IH _ Hrest) as (Hs & Ht & Hn & Hp & Ha & Hb & Hr).
    split; [by etrans|]. split; [by etrans|]. split; [|split; [|split]].
    + intros i Hi. destruct (Hn i Hi) as [Hi1|(s' & ? & ? & ?)].
      * destruct (Hn1 i Hi1) as [?|[-> ?]]; [by left|].
        right. exists s. split; [left|done].
      * right. exists s'. split; [by right|done].
    + intros i Hi. destruct (Hp i Hi) as [Hi1|(s' & ? & ? & [Hi1|?])].
      * destruct (Hp1 i Hi1) as [?|[-> ?]]; [by left|].
        right. exists s. split; [left|done].
      * right. destruct (Hn1 i Hi1) as [?|[-> ?]].
        -- exists s'. split; [by right|]. split; [done|by left].
        -- exists s. split; [left|]. split; [done|by right].
      * right. exists s'. split; [by right|]. split; [done|by right].
    + intros s' Hs' Hc. apply elem_of_cons in Hs' as [->|Hs'].
      * apply Ht. by apply Ha1.
      * apply Ha; [done|]. destruct Hc as [?|?]; [by left|right]. by apply Hs1.
    + split; congruence.
Qed.

(** X8.  A big scan that completes replaces the seen set by the ids met in
    this turn: afterwards an id is seen exactly if the response lists it and
    it was seen before or came with all its patches; ids the response does
    not list are forgotten.  Both cursors move to the request time. *)
Theorem big_scan_resets_seen (p : poll) (st st' : state) (resp : list pw_series) :
  cycle p st = Ok st' →
  (schedule (prev_big_scan st) (prev_req_time st) (req_time p)).1 = true →
  answer p (schedule (prev_big_scan st) (prev_req_time st) (req_time p)).2
    = Some resp →
  (∀ i, i ∈ seen_series st' ↔
        ∃ s, s ∈ resp ∧ id s = i ∧ (i ∈ seen_series st ∨ received_all s = true)) ∧
  prev_big_scan st' = req_time p ∧ prev_req_time st' = req_time p.
Proof.
  unfold cycle. simpl. destruct (schedule _ _ _) as [big since]. simpl.
  intros Hc -> Ha. rewrite Ha in Hc.
  destruct (for_each observe resp _) as [st1|] eqn:Eloop; [|done].
  destruct (interrupted p); [done|]. injection Hc as <-. simpl.
  destruct (observe_all_seen _ _ _ Eloop) as (_ & _ & _ & Hp & Hall & _).
  simpl in *. split; [|done]. intros i. split.
  - intros Hi. destruct (Hp i Hi) as [Hi0|?]; [|done]. by apply elem_of_empty in Hi0.
  - intros (s & Hs & <- & Hc). apply Hall; [done|]. destruct Hc; auto.
Qed.

(** X9.  A normal poll that completes only adds to the seen set, and adds
    exactly the ids that came with all their patches: afterwards an id is
    seen if and only if it was seen before or the response lists it with
    all its patches.  The time of the last big scan stays. *)
Theorem normal_poll_grows_seen (p : poll) (st st' : state) (resp : list pw_series) :
  cycle p st = Ok st' →
  (schedule (prev_big_scan st) (prev_req_time st) (req_time p)).1 = false →
  answer p (schedule (prev_big_scan st) (prev_req_time st) (req_time p)).2
    = Some resp →
  (∀ i, i ∈ seen_series st' ↔
        i ∈ seen_series st ∨ ∃ s, s ∈ resp ∧ id s = i ∧ received_all s = true) ∧
  prev_big_scan st' = prev_big_scan st.
Proof.
  unfold cycle. simpl. destruct (schedule _ _ _) as [big since]. simpl.
  intros Hc -> Ha. rewrite Ha in Hc.
  destruct (for_each observe resp _) as [st1|] eqn:Eloop; [|done].
  destruct (interrupted p); [done|]. injection Hc as <-.
  destruct (observe_all_seen _ _ _ Eloop) as (Hsub & Htp & Hn & _ & Hall & Hb & _).
  simpl in *.
  assert (∀ s, s ∈ resp → received_all s = true → id s ∈ seen_series st1) as Hadd.
  { clear -Eloop. revert Eloop. generalize (begin_scan (begin_poll st)).
    induction resp as [|s resp IH]; intros st0; simpl.
    - intros _ s Hs. by apply elem_of_nil in Hs.
    - destruct (observe st0 s) as [st2|] eqn:E1; [|done]. intros Hrest s' Hs' Hr.
      apply elem_of_cons in Hs' as [->|?]; [|by eapply IH].
      destruct (observe_all_seen _ _ _ Hrest) as (Hsub & _). apply Hsub.
      clear -E1 Hr. unfold observe, process_series in E1.
      case_bool_decide as Hs.
      + by injection E1 as <-.
      + destruct (loads s); simpl in E1; [|done]. rewrite Hr in E1. simpl in E1.
        destruct (tester s); try done; injection E1 as <-; simpl;
          apply elem_of_union; left; by apply elem_of_singleton. }
  split; [|by destruct (had_partial_series st1)].
  intros i. destruct (had_partial_series st1); simpl; split; try apply Hn;
    (intros [?|(s & Hs & <- & ?)]; [by apply Hsub|by apply Hadd]).
Qed.

Lemma big_scan_resets_seen_witness :
  (∀ i, i ∈ seen_series (final (cycle (poll_at (hours 4) [stuck; ready]) calm)) ↔
        ∃ s, s ∈ [stuck; ready] ∧ id s = i ∧
             (i ∈ seen_series calm ∨ received_all s = true)) ∧
  prev_big_scan (final (cycle (poll_at (hours 4) [stuck; ready]) calm)) = hours 4 ∧
  prev_req_time (final (cycle (poll_at (hours 4) [stuck; ready]) calm)) = hours 4.
Proof.
  apply (big_scan_resets_seen (poll_at (hours 4) [stuck; ready]) calm);
    reflexivity.
Defined.

Lemma normal_poll_grows_seen_witness :
  (∀ i, i ∈ seen_series (final (cycle (poll_at (minutes 2) [stuck; ready]) calm)) ↔
        i ∈ seen_series calm ∨
        ∃ s, s ∈ [stuck; ready] ∧ id s = i ∧ received_all s = true) ∧
  prev_big_scan (final (cycle (poll_at (minutes 2) [stuck; ready]) calm))
    = prev_big_scan calm.
Proof.
  apply (normal_poll_grows_seen (poll_at (minutes 2) [stuck; ready]) calm);
    reflexivity.
Defined.

(** ** When the cursor is held back *)

Lemma observe_all_ledger (resp : list pw_series) (st : state) :
  ledger_le (partial_series st) (partial_series (final (for_each observe resp st))).
Proof.
  apply (for_each_final
    (λ a b : state, ledger_le (partial_series a) (partial_series b)) observe).
  - intros a. apply ledger_le_refl.
  - intros a b c. apply ledger_le_trans.
  - apply observe_ledger.
Qed.

Lemma observe_flag (st : state) (s : pw_series) (st' : state) :
  observe st s = Ok st' →
  (had_partial_series st = true → had_partial_series st' = true) ∧
  (received_all s = true ∨ id s ∈ seen_series st ∨
   5 ≤ default 0 (partial_series st !! id s) →
   had_partial_series st' = had_partial_series st) ∧
  (received_all s = false → id s ∉ seen_series st →
   partial_series st' !! id s = Some (default 0 (partial_series st !! id s) + 1) ∧
   (default 0 (partial_series st !! id s) < 5 → had_partial_series st' = true)).
Proof.
  destruct (decide (id s ∈ seen_series st)) as [Hs|Hs].
  - unfold observe, process_series. rewrite bool_decide_eq_true_2 by done.
    intros [= <-]. simpl. by split_and!.
  - destruct (received_all s) eqn:Er.
    + unfold observe, process_series. rewrite bool_decide_eq_false_2 by done.
      destruct (loads s); simpl; [|done]. rewrite Er. simpl.
      destruct (tester s); try done; intros [= <-]; simpl; by split_and!.
    + destruct (loads s) eqn:El.
      2:{ unfold observe, process_series. rewrite bool_decide_eq_false_2 by done.
          by rewrite El. }
      rewrite observe_incomplete by done. intros [= <-]. simpl. split_and!.
      * intros ->. by case_bool_decide.
      * intros [?|[?|?]]; [done|done|]. by rewrite bool_decide_eq_false_2 by lia.
      * intros _ _. split; [by rewrite lookup_insert_eq|].
        intros ?. by rewrite bool_decide_eq_true_2.
Qed.

Lemma observe_all_flag_kept (resp : list pw_series) (st st' : state) :
  for_each observe resp st = Ok st' →
  had_partial_series st = true → had_partial_series st' = true.
Proof.
  revert st. induction resp as [|s resp IH]; intros st; simpl; [by intros [= <-]|].
  destruct (observe st s) as [st1|] eqn:E1; [|done]. intros Hrest Hh.
  apply (IH _ Hrest). destruct (observe_flag _ _ _ E1) as (Hk & _). by apply Hk.
Qed.

Lemma observe_all_flag_clear (resp : list pw_series) (st st' : state) :
  for_each observe resp st = Ok st' →
  (∀ s, s ∈ resp → received_all s = false →
     id s ∈ seen_series st ∨ 5 ≤ default 0 (partial_series st !! id s)) →
  had_partial_series st' = had_partial_series st.
Proof.
  revert st. induction resp as [|s resp IH]; intros st; simpl; [by intros [= <-]|].
  destruct (observe st s) as [st1|] eqn:E1; [|done]. intros Hrest Hall.
  destruct (observe_flag _ _ _ E1) as (_ & Hkeep & _).
  destruct (observe_seen _ _ _ E1) as (Hsub & _).
  pose proof (observe_ledger st s) as Hle. rewrite E1 in Hle. simpl in Hle.
  rewrite (IH _ Hrest).
  - apply Hkeep. destruct (received_all s) eqn:Er; [by left|right].
    apply Hall; [left|done].
  - intros s' Hs' Hr'. destruct (Hall s') as [?|Hc]; [by right|done|by left; apply Hsub|].
    right. destruct (partial_series st !! id s') as [n|] eqn:En; simpl in Hc; [|lia].
    destruct (Hle _ _ En) as (n' & -> & ?). simpl. lia.
Qed.

Lemma observe_all_flag_set (resp : list pw_series) (st st' : state) (s : pw_series)
    (n : Z) :
  for_each observe resp st = Ok st' →
  s ∈ resp → received_all s = false → id s ∉ seen_series st' →
  partial_series st' !! id s = Some n → n ≤ 5 →
  had_partial_series st' = true.
Proof.
  revert st. induction resp as [|x resp IH]; intros st; simpl.
  - intros _ Hs. by apply elem_of_nil in Hs.
  - destruct (observe st x) as [st1|] eqn:E1; [|done].
    intros Hrest Hs Hr Hseen Hn Hle.
    apply elem_of_cons in Hs as [Heq|Hs]; [subst x|by eapply IH].
    destruct (observe_seen _ _ _ E1) as (Hsub1 & _).
    destruct (observe_all_seen _ _ _ Hrest) as (Hsub & _).
    destruct (observe_flag _ _ _ E1) as (_ & _ & Hinc).
    destruct Hinc as [Hc1 Hset]; [done|by intros ?; apply Hseen, Hsub, Hsub1|].
    pose proof (observe_all_ledger resp st1) as Hled. rewrite Hrest in Hled.
    simpl in Hled. destruct (Hled _ _ Hc1) as (n' & Hn' & ?).
    rewrite Hn in Hn'. injection Hn' as <-.
    apply (observe_all_flag_kept _ _ _ Hrest). apply Hset. lia.
Qed.

(** X10.  In a normal poll that completes, the cursor moves to the request
    time when every series of the response that lacks patches is already
    seen or has been counted five times or more before; and it stays where
    it was when some series of the response lacks patches, is still unseen
    after the turn and has a count of at most five. *)
Theorem cursor_hold_condition (p : poll) (st st' : state) (resp : list pw_series) :
  cycle p st = Ok st' →
  (schedule (prev_big_scan st) (prev_req_time st) (req_time p)).1 = false →
  answer p (schedule (prev_big_scan st) (prev_req_time st) (req_time p)).2
    = Some resp →
  ((∀ s, s ∈ resp → received_all s = false →
      id s ∈ seen_series st ∨ 5 ≤ default 0 (partial_series st !! id s)) →
   prev_req_time st' = req_time p) ∧
  (∀ s n, s ∈ resp → received_all s = false → id s ∉ seen_series st' →
     partial_series st' !! id s = Some n → n ≤ 5 →
     prev_req_time st' = prev_req_time st).
Proof.
  unfold cycle. simpl. destruct (schedule _ _ _) as [big since]. simpl.
  intros Hc -> Ha. rewrite Ha in Hc.
  destruct (for_each observe resp _) as [st1|] eqn:Eloop; [|done].
  destruct (interrupted p); [done|]. injection Hc as <-.
  destruct (observe_all_seen _ _ _ Eloop) as (_ & _ & _ & _ & _ & _ & Hreq).
  simpl in Hreq. split.
  - intros Hall. rewrite (observe_all_flag_clear _ _ _ Eloop) by done. done.
  - intros s n Hs Hr Hseen Hn Hle.
    destruct (had_partial_series st1) eqn:Eh; [done|]. simpl in *.
    by rewrite (observe_all_flag_set _ _ _ _ _ Eloop Hs Hr Hseen Hn Hle) in Eh.
Qed.

Lemma cursor_hold_condition_witness :
  ((∀ s, s ∈ [stuck; ready] → received_all s = false →
      id s ∈ seen_series calm ∨ 5 ≤ default 0 (partial_series calm !! id s)) →
   prev_req_time (final (cycle (poll_at (minutes 2) [stuck; ready]) calm))
     = req_time (poll_at (minutes 2) [stuck; ready])) ∧
  (∀ s n, s ∈ [stuck; ready] → received_all s = false →
     id s ∉ seen_series (final (cycle (poll_at (minutes 2) [stuck; ready]) calm)) →
     partial_series (final (cycle (poll_at (minutes 2) [stuck; ready]) calm)) !! id s
       = Some n →
     n ≤ 5 →
     prev_req_time (final (cycle (poll_at (minutes 2) [stuck; ready]) calm))
       = prev_req_time calm).
Proof.
  apply (cursor_hold_condition (poll_at (minutes 2) [stuck; ready]) calm);
    reflexivity.
Defined.
End PwPollerExtras.

(** * Properties of the tree selection *)

Module TreeSelectionProps.
Import TreeSelection.
Local Open Scope string_scope.

(** X11.  A series is tested exactly when it ends up with a tree the poller
    knows: on the tree its subject names, when that is net or net-next; or,
    with no tree in the subject, when it should be local and is not to be
    ignored, on net if it is a fix for net and otherwise on net-next if it
    applies there.  The lookup of the tree fails exactly for a tree named in
    the subject that is neither, never for a guessed one; and the series
    counts as marked exactly when its subject names a tree. *)
Theorem tested_tree (v : verdicts) :
  (∀ t, select_test (series_determine_tree v).1 = TestsOn t ↔
        (series_tree_name_direct v = Some t ∧ t ≠ "" ∧ t ∈ trees) ∨
        (named (series_tree_name_direct v) = false ∧
         series_tree_name_should_be_local v = true ∧
         series_ignore_missing_tree_name v = false ∧
         ((series_is_a_fix_for_net v = true ∧ t = "net") ∨
          (series_is_a_fix_for_net v = false ∧ net_next_check_applies v = true ∧
           t = "net-next")))) ∧
  (∀ n, select_test (series_determine_tree v).1 = UnknownTree n ↔
        series_tree_name_direct v = Some n ∧ n ≠ "" ∧ n ∉ trees) ∧
  (tree_marked (series_determine_tree v).1 = named (series_tree_name_direct v)).
Proof.
  destruct v as [direct loc ign isfix applies].
  unfold series_determine_tree, select_test. simpl.
  assert (named direct = true → ∃ c s, direct = Some (String c s)) as Hnamed.
  { destruct direct as [[|c s]|]; try done. by eexists _, _. }
  destruct (named direct) eqn:En.
  - destruct (Hnamed eq_refl) as (c & s & ->). simpl. split; [|split; [|done]].
    + intros t. case_bool_decide as Hin; split.
      * intros [= <-]. by left.
      * intros [([= <-] & _)|(? & _)]; done.
      * done.
      * intros [([= <-] & _ & ?)|(? & _)]; done.
    + intros n. case_bool_decide as Hin; split.
      * done.
      * intros ([= <-] & _ & ?). done.
      * by intros [= <-].
      * by intros ([= <-] & _).
  - assert ("net" ∈ trees ∧ "net-next" ∈ trees) as [Hnet Hnext].
    { split; apply elem_of_cons; [right; apply elem_of_cons|]; by left. }
    split; [|split; [|by destruct loc, ign]].
    + intros t.
      destruct direct as [[|c0 s0]|]; [|done|];
        destruct loc, ign, isfix, applies; simpl;
        rewrite ?(bool_decide_eq_true_2 _ Hnet), ?(bool_decide_eq_true_2 _ Hnext);
        (split;
         [ first [done|intros [= <-]; right; intuition done]
         | intros [(Hd & Hne & _)|(_ & Hl & Hi & [[Hf ->]|(Hf & Ha & ->)])];
             first [done|by injection Hd as <-] ]).
    + intros n.
      destruct direct as [[|c0 s0]|]; [|done|];
        destruct loc, ign, isfix, applies; simpl;
        rewrite ?(bool_decide_eq_true_2 _ Hnet), ?(bool_decide_eq_true_2 _ Hnext);
        (split; [done|intros (Hd & Hne & _); first [done|by injection Hd as <-]]).
Qed.

(** ** The result files *)

Lemma changes_within_refl P fs : changes_within P fs fs.
Proof. intros q. by left. Qed.

Lemma changes_within_trans (P Q R : list string → Prop) fs1 fs2 fs3 :
  (∀ q, P q → R q) → (∀ q, Q q → R q) →
  changes_within P fs1 fs2 → changes_within Q fs2 fs3 → changes_within R fs1 fs3.
Proof.
  intros HP HQ H1 H2 q. destruct (H2 q) as [->|?]; [|by right; apply HQ].
  destruct (H1 q) as [->|?]; [by left|by right; apply HP].
Qed.

Lemma keeps_outside_refl E fs : keeps_outside E fs fs.
Proof. by intros q n _ ?. Qed.

Lemma keeps_outside_trans (E : list string → Prop) fs1 fs2 fs3 :
  keeps_outside E fs1 fs2 → keeps_outside E fs2 fs3 → keeps_outside E fs1 fs3.
Proof. intros H1 H2 q n HE Hq. by apply H2, H1. Qed.

Lemma keeps_outside_weaken (E E' : list string → Prop) fs fs' :
  (∀ q, E q → E' q) → keeps_outside E fs fs' → keeps_outside E' fs fs'.
Proof. intros HE H q n Hq. apply H. intros ?. by apply Hq, HE. Qed.

Lemma exists_path_false fs p :
  exists_path fs p = false → p ≠ [] ∧ fs !! p = None.
Proof.
  unfold exists_path. intros H%bool_decide_eq_false. destruct p as [|c p]; simpl in *.
  - destruct H. by eexists.
  - split; [done|]. by apply eq_None_not_Some.
Qed.

Lemma exists_path_true fs p :
  p ≠ [] → exists_path fs p = true ↔ is_Some (fs !! p).
Proof.
  intros Hp. unfold exists_path. rewrite bool_decide_eq_true. by destruct p.
Qed.

Lemma new_node_effect p nd fs :
  fs !! p = None →
  changes_within (λ q, q = p) fs (<[p := nd]> fs) ∧
  keeps_outside (λ _, False) fs (<[p := nd]> fs).
Proof.
  intros Hp. split.
  - intros q. destruct (decide (p = q)) as [<-|?]; [by right|].
    left. by rewrite lookup_insert_ne.
  - intros q n _ Hq. rewrite lookup_insert_ne; [done|]. intros <-. congruence.
Qed.

Lemma mkdir_effect p fs :
  changes_within (λ q, q = p) fs (final (mkdir p fs)) ∧
  keeps_outside (λ _, False) fs (final (mkdir p fs)) ∧
  (∀ fs', mkdir p fs = Ok fs' → fs' !! p = Some Dir).
Proof.
  unfold mkdir. destruct (exists_path fs p) eqn:Ee; simpl.
  { split; [apply changes_within_refl|]. split; [apply keeps_outside_refl|done]. }
  apply exists_path_false in Ee as [_ Hp].
  destruct (parent_ready fs (tail p)); simpl.
  { split; [apply changes_within_refl|]. split; [apply keeps_outside_refl|done]. }
  destruct (new_node_effect p Dir fs Hp) as [? ?]. split; [done|]. split; [done|].
  intros fs' [= <-]. by rewrite lookup_insert_eq.
Qed.

Lemma mknod_effect p fs :
  changes_within (λ q, q = p) fs (final (mknod p fs)) ∧
  keeps_outside (λ _, False) fs (final (mknod p fs)) ∧
  (∀ fs', mknod p fs = Ok fs' → is_Some (fs' !! p)).
Proof.
  unfold mknod. destruct (exists_path fs p) eqn:Ee; simpl.
  { split; [apply changes_within_refl|]. split; [apply keeps_outside_refl|done]. }
  apply exists_path_false in Ee as [_ Hp].
  destruct (parent_ready fs (tail p)); simpl.
  { split; [apply changes_within_refl|]. split; [apply keeps_outside_refl|done]. }
  destruct (new_node_effect p (File "") fs Hp) as [? ?]. split; [done|]. split; [done|].
  intros fs' [= <-]. rewrite lookup_insert_eq. by eexists.
Qed.

Lemma makedirs_effect p fs :
  changes_within (λ q, at_or_above q p) fs (final (makedirs p fs)) ∧
  keeps_outside (λ _, False) fs (final (makedirs p fs)) ∧
  (∀ fs', makedirs p fs = Ok fs' → fs' !! p = Some Dir).
Proof.
  revert fs. induction p as [|c parent IH]; intros fs; simpl.
  - destruct (mkdir_effect [] fs) as (Hc & Hk & Hd). split; [|done].
    intros q. destruct (Hc q) as [?| ->]; [by left|by right].
  - assert (∀ fs1, changes_within (λ q, at_or_above q parent) fs fs1 →
                   keeps_outside (λ _, False) fs fs1 →
      changes_within (λ q, at_or_above q (c :: parent)) fs
        (final (mkdir (c :: parent) fs1)) ∧
      keeps_outside (λ _, False) fs (final (mkdir (c :: parent) fs1)) ∧
      (∀ fs', mkdir (c :: parent) fs1 = Ok fs' → fs' !! (c :: parent) = Some Dir))
      as Hleaf.
    { intros fs1 Hc1 Hk1. destruct (mkdir_effect (c :: parent) fs1) as (Hc & Hk & Hd).
      split; [|split; [by eapply keeps_outside_trans|done]].
      eapply changes_within_trans; [| |exact Hc1|exact Hc].
      - intros q Hq. by apply suffix_cons_r.
      - by intros q ->. }
    destruct (exists_path fs parent).
    { apply Hleaf; [apply changes_within_refl|apply keeps_outside_refl]. }
    destruct (IH fs) as (Hc1 & Hk1 & _).
    destruct (makedirs parent fs) as [fs1|e fs1]; simpl in *.
    + by apply Hleaf.
    + destruct e; simpl; try by apply Hleaf.
      all: split; [|done]; intros q; destruct (Hc1 q) as [?|?];
        [by left|right; by apply suffix_cons_r].
Qed.

Lemma ensure_dir_effect d fs :
  d ≠ [] →
  changes_within (λ q, at_or_above q d) fs (final (ensure_dir d fs)) ∧
  keeps_outside (λ _, False) fs (final (ensure_dir d fs)) ∧
  (∀ fs', ensure_dir d fs = Ok fs' → is_Some (fs' !! d)).
Proof.
  intros Hd. unfold ensure_dir. destruct (exists_path fs d) eqn:Ee; simpl.
  - split; [apply changes_within_refl|]. split; [apply keeps_outside_refl|].
    intros fs' [= <-]. by apply exists_path_true.
  - destruct (makedirs_effect d fs) as (? & ? & Hdir). split; [done|]. split; [done|].
    intros fs' Hm. rewrite (Hdir _ Hm). by eexists.
Qed.

Lemma write_text_ok p content fs fs' :
  write_text p content fs = Ok fs' →
  fs' = <[p := File content]> fs ∧ node_at fs (tail p) = Some Dir ∧
  node_at fs p ≠ Some Dir.
Proof.
  unfold write_text, parent_ready.
  destruct (node_at fs (tail p)) as [[|?]|]; try done.
  destruct (node_at fs p) as [[|?]|]; try done; by intros [= <-].
Qed.

Lemma write_text_effect p content fs :
  changes_within (λ q, q = p) fs (final (write_text p content fs)) ∧
  keeps_outside (λ q, q = p) fs (final (write_text p content fs)).
Proof.
  destruct (write_text p content fs) as [fs'|e fs'] eqn:Ew; simpl.
  - apply write_text_ok in Ew as (-> & _). split.
    + intros q. destruct (decide (p = q)) as [<-|?]; [by right|].
      left. by rewrite lookup_insert_ne.
    + intros q n Hq Hn. rewrite lookup_insert_ne; [done|]. by intros <-.
  - assert (fs' = fs) as ->.
    { unfold write_text in Ew. destruct (parent_ready fs (tail p)); [by injection Ew|].
      destruct (node_at fs p) as [[|?]|]; by try injection Ew. }
    split; [apply changes_within_refl|apply keeps_outside_refl].
Qed.

Lemma ensure_patch_dirs_effect rd sid patches fs :
  keeps_outside (λ _, False) fs
    (final (for_each (λ fs patch, ensure_dir (patch_dir rd sid patch) fs) patches fs)) ∧
  (∀ fs', for_each (λ fs patch, ensure_dir (patch_dir rd sid patch) fs) patches fs
            = Ok fs' →
          ∀ patch, patch ∈ patches → is_Some (fs' !! patch_dir rd sid patch)).
Proof.
  revert fs. induction patches as [|x patches IH]; intros fs; simpl.
  - split; [apply keeps_outside_refl|]. intros fs' _ patch Hp.
    by apply elem_of_nil in Hp.
  - destruct (ensure_dir_effect (patch_dir rd sid x) fs) as (_ & Hk1 & Hd1); [done|].
    destruct (ensure_dir (patch_dir rd sid x) fs) as [fs1|e fs1]; simpl in *; [|done].
    destruct (IH fs1) as [Hk Hd]. split; [by eapply keeps_outside_trans|].
    intros fs' Hrest patch Hp. apply elem_of_cons in Hp as [->|?]; [|by eapply Hd].
    destruct (Hd1 fs1 eq_refl) as [n Hn]. rewrite Hrest in Hk. simpl in Hk.
    exists n. apply (Hk _ n); [by intros []|done].
Qed.

Lemma wtsr_steps rd sid patches comment fs fs' :
  write_tree_selection_result rd sid patches comment fs = Ok fs' →
  ∃ fs1 fs3,
    ensure_dir (tree_test_dir rd sid) fs = Ok fs1 ∧
    fs1 !! tree_test_dir rd sid = Some Dir ∧
    fs1 !! retcode_file rd sid ≠ Some Dir ∧
    fs1 !! desc_file rd sid ≠ Some Dir ∧
    fs3 = <[desc_file rd sid := File comment]>
            (<[retcode_file rd sid := File "0"]> fs1) ∧
    ((exists_path fs3 (done_file rd sid) = true ∧ fs' = fs3) ∨
     (exists_path fs3 (done_file rd sid) = false ∧
      ∃ fs4,
        for_each (λ fs patch, ensure_dir (patch_dir rd sid patch) fs) patches fs3
          = Ok fs4 ∧
        mknod (done_file rd sid) fs4 = Ok fs')).
Proof.
  unfold write_tree_selection_result, and_then.
  destruct (ensure_dir (tree_test_dir rd sid) fs) as [fs1|] eqn:E1; [|done].
  destruct (write_text (retcode_file rd sid) "0" fs1) as [fs2|] eqn:E2; [|done].
  destruct (write_text (desc_file rd sid) comment fs2) as [fs3|] eqn:E3; [|done].
  apply write_text_ok in E2 as (-> & Hdir & Hr).
  apply write_text_ok in E3 as (-> & _ & Hd).
  intros Hrest. eexists fs1, _. split; [done|]. split; [done|]. split; [done|].
  split; [|split; [done|]].
  - simpl in Hd. rewrite lookup_insert_ne in Hd by done. done.
  - destruct (exists_path _ (done_file rd sid)) eqn:Ee.
    + left. split; [done|]. by injection Hrest.
    + right. split; [done|].
      destruct (for_each _ patches _) as [fs4|] eqn:E4; [|done]. by exists fs4.
Qed.

(** X12.  When [write_tree_selection_result] returns, the tree_selection
    directory of the series is there, its retcode file holds "0", its desc
    file holds the comment, and the series has its .tester_done mark; and
    when that mark was missing before, every patch of the series has its
    directory. *)
Theorem write_tree_selection_result_leaves (rd : list string) (sid : Z)
    (patches : list Z) (comment : string) (fs fs' : gmap (list string) node) :
  write_tree_selection_result rd sid patches comment fs = Ok fs' →
  fs' !! tree_test_dir rd sid = Some Dir ∧
  fs' !! retcode_file rd sid = Some (File "0") ∧
  fs' !! desc_file rd sid = Some (File comment) ∧
  is_Some (fs' !! done_file rd sid) ∧
  (fs !! done_file rd sid = None →
   ∀ patch, patch ∈ patches → is_Some (fs' !! patch_dir rd sid patch)).
Proof.
  intros Hw.
  destruct (wtsr_steps _ _ _ _ _ _ Hw) as (fs1 & fs3 & E1 & Hdir & _ & _ & -> & Hrest).
  set (fs3 := <[desc_file rd sid := File comment]> _) in *.
  assert (fs3 !! tree_test_dir rd sid = Some Dir ∧
          fs3 !! retcode_file rd sid = Some (File "0") ∧
          fs3 !! desc_file rd sid = Some (File comment)) as (H1 & H2 & H3).
  { unfold fs3. split; [|split].
    - by rewrite !lookup_insert_ne.
    - rewrite lookup_insert_ne by done. by rewrite lookup_insert_eq.
    - by rewrite lookup_insert_eq. }
  assert (fs !! done_file rd sid = None → fs3 !! done_file rd sid = None) as Hdone.
  { intros Hn. unfold fs3. rewrite !lookup_insert_ne by done.
    destruct (ensure_dir_effect (tree_test_dir rd sid) fs) as (Hc & _); [done|].
    rewrite E1 in Hc. simpl in Hc. destruct (Hc (done_file rd sid)) as [->|Habove]; [done|].
    exfalso. apply suffix_cons_inv in Habove as [?|Habove]; [done|].
    apply suffix_length in Habove. simpl in Habove. lia. }
  destruct Hrest as [[Ee ->]|(Ee & fs4 & E4 & E5)].
  - split; [done|]. split; [done|]. split; [done|].
    apply exists_path_true in Ee; [|done]. split; [done|].
    intros Hn. apply Hdone in Hn. rewrite Hn in Ee. by destruct Ee.
  - destruct (ensure_patch_dirs_effect rd sid patches fs3) as [Hk4 Hp4].
    rewrite E4 in Hk4. simpl in Hk4.
    destruct (mknod_effect (done_file rd sid) fs4) as (_ & Hk5 & Hd5).
    rewrite E5 in Hk5. simpl in Hk5.
    assert (keeps_outside (λ _, False) fs3 fs') as Hk by (by eapply keeps_outside_trans).
    split; [by apply (Hk _ Dir); [intros []|]|].
    split; [by apply (Hk _ (File "0")); [intros []|]|].
    split; [by apply (Hk _ (File comment)); [intros []|]|].
    split; [by apply Hd5|].
    intros _ patch Hp. destruct (Hp4 _ E4 patch Hp) as [n Hn]. exists n.
    by apply (Hk5 _ n); [intros []|].
Qed.

Lemma write_tree_selection_result_leaves_witness :
  selected_disk !! tree_test_dir ["results"] 42 = Some Dir ∧
  selected_disk !! retcode_file ["results"] 42 = Some (File "0") ∧
  selected_disk !! desc_file ["results"] 42 = Some (File sample_comment) ∧
  is_Some (selected_disk !! done_file ["results"] 42) ∧
  (empty_disk !! done_file ["results"] 42 = None →
   ∀ patch, patch ∈ sample_patches →
            is_Some (selected_disk !! patch_dir ["results"] 42 patch)).
Proof.
  apply (write_tree_selection_result_leaves ["results"] 42 sample_patches
           sample_comment empty_disk).
  vm_compute. reflexivity.
Defined.

Example selected_disk_listing :
  selected_disk =
    {[ ["results"] := Dir;
       ["42"; "results"] := Dir;
       ["tree_selection"; "42"; "results"] := Dir;
       ["retcode"; "tree_selection"; "42"; "results"] := File "0";
       ["desc"; "tree_selection"; "42"; "results"] := File sample_comment;
       ["1001"; "42"; "results"] := Dir;
       ["1002"; "42"; "results"] := Dir;
       [".tester_done"; "42"; "results"] := File "" ]}.
Proof. vm_compute. reflexivity. Qed.

Lemma write_same (p : list string) (nd : node) (fs : gmap (list string) node) :
  fs !! p = Some nd → <[p := nd]> fs = fs.
Proof. apply insert_id. Qed.

(** X13.  [write_tree_selection_result] is idempotent: called again with
    the same series and comment on the disk it left, it returns and leaves
    that disk as it is. *)
Theorem write_tree_selection_result_again (rd : list string) (sid : Z)
    (patches : list Z) (comment : string) (fs fs' : gmap (list string) node) :
  write_tree_selection_result rd sid patches comment fs = Ok fs' →
  write_tree_selection_result rd sid patches comment fs' = Ok fs'.
Proof.
  intros Hw.
  destruct (wtsr_steps _ _ _ _ _ _ Hw) as (fs1 & fs3 & E1 & Hdir & _ & _ & -> & Hrest).
  set (fs3 := <[desc_file rd sid := File comment]> _) in *.
  assert (fs3 !! tree_test_dir rd sid = Some Dir ∧
          fs3 !! retcode_file rd sid = Some (File "0") ∧
          fs3 !! desc_file rd sid = Some (File comment)) as (H1 & H2 & H3).
  { unfold fs3. split; [|split].
    - by rewrite !lookup_insert_ne.
    - rewrite lookup_insert_ne by done. by rewrite lookup_insert_eq.
    - by rewrite lookup_insert_eq. }
  assert (fs' !! tree_test_dir rd sid = Some Dir ∧
          fs' !! retcode_file rd sid = Some (File "0") ∧
          fs' !! desc_file rd sid = Some (File comment) ∧
          is_Some (fs' !! done_file rd sid)) as (F1 & F2 & F3 & F4).
  { destruct Hrest as [[Ee ->]|(Ee & fs4 & E4 & E5)].
    - apply exists_path_true in Ee; done.
    - destruct (ensure_patch_dirs_effect rd sid patches fs3) as [Hk4 _].
      rewrite E4 in Hk4. simpl in Hk4.
      destruct (mknod_effect (done_file rd sid) fs4) as (_ & Hk5 & Hd5).
      rewrite E5 in Hk5. simpl in Hk5.
      assert (keeps_outside (λ _, False) fs3 fs') as Hk
        by (by eapply keeps_outside_trans).
      split; [by apply (Hk _ Dir); [intros []|]|].
      split; [by apply (Hk _ (File "0")); [intros []|]|].
      split; [by apply (Hk _ (File comment)); [intros []|]|].
      by apply Hd5. }
  unfold write_tree_selection_result, and_then, ensure_dir.
  rewrite (proj2 (exists_path_true fs' (tree_test_dir rd sid) ltac:(done)))
    by (by eexists).
  assert (write_text (retcode_file rd sid) "0" fs' = Ok fs') as ->.
  { unfold write_text, parent_ready. simpl. rewrite F1, F2.
    by rewrite write_same. }
  assert (write_text (desc_file rd sid) comment fs' = Ok fs') as ->.
  { unfold write_text, parent_ready. simpl. rewrite F1, F3.
    by rewrite write_same. }
  by rewrite (proj2 (exists_path_true fs' (done_file rd sid) ltac:(done))).
Qed.

Lemma write_tree_selection_result_again_witness :
  write_tree_selection_result ["results"] 42 sample_patches sample_comment
    selected_disk = Ok selected_disk.
Proof.
  apply (write_tree_selection_result_again ["results"] 42 sample_patches
           sample_comment empty_disk).
  vm_compute. reflexivity.
Defined.

(** X14.  [write_tree_selection_result], whether it returns or raises,
    changes or removes nothing that was on disk apart from the retcode and
    desc files of the series.  When the series already has its .tester_done
    mark, all it touches are those two files and, if they are missing, the
    tree_selection directory and the directories above it: no patch
    directory is made and the mark is left alone. *)
Theorem write_tree_selection_result_frame (rd : list string) (sid : Z)
    (patches : list Z) (comment : string) (fs : gmap (list string) node) :
  keeps_outside (λ q, q = retcode_file rd sid ∨ q = desc_file rd sid) fs
    (final (write_tree_selection_result rd sid patches comment fs)) ∧
  (is_Some (fs !! done_file rd sid) →
   changes_within
     (λ q, q = retcode_file rd sid ∨ q = desc_file rd sid ∨
           at_or_above q (tree_test_dir rd sid))
     fs (final (write_tree_selection_result rd sid patches comment fs))).
Proof.
  set (E := λ q, q = retcode_file rd sid ∨ q = desc_file rd sid).
  set (P := λ q, q = retcode_file rd sid ∨ q = desc_file rd sid ∨
                 at_or_above q (tree_test_dir rd sid)).
  unfold write_tree_selection_result, and_then.
  destruct (ensure_dir_effect (tree_test_dir rd sid) fs) as (Hc1 & Hk1 & _); [done|].
  apply (keeps_outside_weaken _ E) in Hk1; [|by intros q []].
  assert (changes_within P fs (final (ensure_dir (tree_test_dir rd sid) fs))) as Hp1.
  { intros q. destruct (Hc1 q) as [?|?]; [by left|right]. by right; right. }
  destruct (ensure_dir (tree_test_dir rd sid) fs) as [fs1|e fs1]; simpl in *; [|done].
  destruct (write_text_effect (retcode_file rd sid) "0" fs1) as (Hc2 & Hk2).
  apply (keeps_outside_weaken _ E) in Hk2; [|by intros q ?; left].
  assert (changes_within P fs (final (write_text (retcode_file rd sid) "0" fs1)))
    as Hp2.
  { intros q. destruct (Hc2 q) as [->|?]; [apply Hp1|right; by left]. }
  pose proof (keeps_outside_trans _ _ _ _ Hk1 Hk2) as Hk12.
  destruct (write_text (retcode_file rd sid) "0" fs1) as [fs2|e fs2]; simpl in *;
    [|done].
  destruct (write_text_effect (desc_file rd sid) comment fs2) as (Hc3 & Hk3).
  apply (keeps_outside_weaken _ E) in Hk3; [|by intros q ?; right].
  assert (changes_within P fs (final (write_text (desc_file rd sid) comment fs2)))
    as Hp3.
  { intros q. destruct (Hc3 q) as [->|?]; [apply Hp2|right; by right; left]. }
  pose proof (keeps_outside_trans _ _ _ _ Hk12 Hk3) as Hk123.
  destruct (write_text (desc_file rd sid) comment fs2) as [fs3|e fs3]; simpl in *;
    [|done].
  destruct (exists_path fs3 (done_file rd sid)) eqn:Ee; [done|].
  split.
  - destruct (ensure_patch_dirs_effect rd sid patches fs3) as [Hk4 _].
    apply (keeps_outside_weaken _ E) in Hk4; [|by intros q []].
    destruct (for_each _ patches fs3) as [fs4|e fs4]; simpl in *;
      [|by eapply keeps_outside_trans].
    destruct (mknod_effect (done_file rd sid) fs4) as (_ & Hk5 & _).
    apply (keeps_outside_weaken _ E) in Hk5; [|by intros q []].
    eapply keeps_outside_trans; [|exact Hk5]. by eapply keeps_outside_trans.
  - intros [n Hn]. exfalso. apply exists_path_false in Ee as [_ Ee].
    assert (fs3 !! done_file rd sid = Some n) as Hn3; [|congruence].
    apply Hk123; [|done]. unfold E. by intros [?|?].
Qed.

Lemma exists_path_none fs p :
  p ≠ [] → fs !! p = None → exists_path fs p = false.
Proof.
  intros Hp Hn. unfold exists_path. apply bool_decide_eq_false.
  destruct p; [done|]. simpl. rewrite Hn. by intros [].
Qed.

Lemma exists_path_node fs p n : node_at fs p = Some n → exists_path fs p = true.
Proof. intros Hn. unfold exists_path. apply bool_decide_eq_true. by rewrite Hn. Qed.

Lemma child_ne (c : string) (d : list string) : c :: d ≠ d.
Proof. intros H. apply (f_equal length) in H. simpl in H. lia. Qed.

Lemma makedirs_missing_parent c parent fs :
  exists_path fs parent = false →
  makedirs (c :: parent) fs =
    match makedirs parent fs with
    | Ok fs' => mkdir (c :: parent) fs'
    | Raise FileExistsError fs' => mkdir (c :: parent) fs'
    | Raise e fs' => Raise e fs'
    end.
Proof. intros He. simpl. by rewrite He. Qed.

Ltac path_ne :=
  unfold retcode_file, desc_file, done_file, patch_dir, tree_test_dir, series_dir;
  first [ done
        | let H := fresh in
          intros H; apply (f_equal length) in H; simpl in H; lia ].

Lemma pretty_N_go_ne_dot x s s' : s ≠ "." +:+ s' → pretty_N_go x s ≠ "." +:+ s'.
Proof.
  revert s. induction (N.lt_wf_0 x) as [x _ IH]; intros s ?.
  assert (x = 0 ∨ 0 < x)%N as [->|?] by lia.
  - by rewrite pretty_N_go_0.
  - rewrite pretty_N_go_step by done. apply IH.
    { by apply N.div_lt. }
    unfold pretty_N_char. by repeat case_match.
Qed.

Lemma patch_dir_not_done rd sid patch : patch_dir rd sid patch ≠ done_file rd sid.
Proof.
  unfold patch_dir, done_file. intros [= Hp]. revert Hp.
  unfold pretty, pretty_Z. destruct patch as [|x|x]; [done| |done].
  unfold pretty, pretty_positive, pretty, pretty_N. case_decide; [done|].
  by apply (pretty_N_go_ne_dot _ "" "tester_done").
Qed.

Lemma ensure_child_ok (c : string) (d : list string) (fs : gmap (list string) node) :
  fs !! (c :: d) = None ∨ fs !! (c :: d) = Some Dir →
  node_at fs d = Some Dir →
  ∃ fs', ensure_dir (c :: d) fs = Ok fs' ∧ fs' !! (c :: d) = Some Dir ∧
         (fs' = fs ∨ fs' = <[c :: d := Dir]> fs).
Proof.
  intros Hc Hd. unfold ensure_dir.
  destruct (exists_path fs (c :: d)) eqn:Ee.
  - exists fs. split; [done|]. split; [|by left].
    apply exists_path_true in Ee as [n Hn]; [|done]. destruct Hc; congruence.
  - simpl. rewrite (exists_path_node fs d Dir) by done.
    unfold mkdir. rewrite Ee. unfold parent_ready. simpl. rewrite Hd.
    eexists. split; [done|]. split; [by rewrite lookup_insert_eq|by right].
Qed.

Lemma ensure_patch_dirs_ok rd sid patches fs :
  fs !! series_dir rd sid = Some Dir →
  fs !! done_file rd sid = None →
  ∃ fs', for_each (λ fs patch, ensure_dir (patch_dir rd sid patch) fs) patches fs
           = Ok fs' ∧
         fs' !! series_dir rd sid = Some Dir ∧ fs' !! done_file rd sid = None.
Proof.
  revert fs. induction patches as [|x patches IH]; intros fs Hsd Hdone; simpl.
  - by exists fs.
  - destruct (exists_path fs (patch_dir rd sid x)) eqn:Ee.
    { assert (ensure_dir (patch_dir rd sid x) fs = Ok fs) as ->
        by (unfold ensure_dir; by rewrite Ee).
      by apply IH. }
    apply exists_path_false in Ee as [_ Ee].
    destruct (ensure_child_ok (pretty x) (series_dir rd sid) fs)
      as (fs1 & E1 & _ & Hfs1); [by left|done|].
    fold (patch_dir rd sid x) in E1, Hfs1.
    rewrite E1. apply IH.
    + destruct Hfs1 as [->| ->]; [done|].
      rewrite lookup_insert_ne; [done|]. apply child_ne.
    + destruct Hfs1 as [->| ->]; [done|].
      rewrite lookup_insert_ne; [done|]. apply patch_dir_not_done.
Qed.

(** X15.  [write_tree_selection_result] returns, without raising, on every
    disk where the result directory is a directory, the directory of the
    series is missing or a directory, its tree_selection entry is missing
    or a directory (missing when the directory of the series is), and
    neither retcode nor desc is a directory there. *)
Theorem write_tree_selection_result_returns (rd : list string) (sid : Z)
    (patches : list Z) (comment : string) (fs : gmap (list string) node) :
  node_at fs rd = Some Dir →
  (fs !! series_dir rd sid = None ∧ fs !! tree_test_dir rd sid = None) ∨
  (fs !! series_dir rd sid = Some Dir ∧
   (fs !! tree_test_dir rd sid = None ∨ fs !! tree_test_dir rd sid = Some Dir)) →
  fs !! retcode_file rd sid ≠ Some Dir →
  fs !! desc_file rd sid ≠ Some Dir →
  ∃ fs', write_tree_selection_result rd sid patches comment fs = Ok fs'.
Proof.
  intros Hrd Hsd Hr Hd.
  assert (∃ fs1, ensure_dir (tree_test_dir rd sid) fs = Ok fs1 ∧
                 fs1 !! series_dir rd sid = Some Dir ∧
                 fs1 !! tree_test_dir rd sid = Some Dir ∧
                 fs1 !! retcode_file rd sid = fs !! retcode_file rd sid ∧
                 fs1 !! desc_file rd sid = fs !! desc_file rd sid)
    as (fs1 & E1 & Hsd1 & Htd1 & Hr1 & Hd1).
  { destruct Hsd as [[Hs Ht]|[Hs Ht]].
    - destruct (ensure_child_ok (pretty sid) rd fs) as (fs0 & E0 & Hs0 & Hfs0);
        [by left|done|].
      fold (series_dir rd sid) in E0, Hs0, Hfs0.
      assert (fs0 = <[series_dir rd sid := Dir]> fs) as ->.
      { destruct Hfs0 as [->|?]; [congruence|done]. }
      unfold ensure_dir in E0.
      rewrite (exists_path_none fs (series_dir rd sid)) in E0 by done.
      exists (<[tree_test_dir rd sid := Dir]> (<[series_dir rd sid := Dir]> fs)).
      split; [|split; [|split; [|split]]].
      + unfold ensure_dir.
        rewrite (exists_path_none fs (tree_test_dir rd sid)) by done.
        unfold tree_test_dir at 1.
        rewrite makedirs_missing_parent by (by apply exists_path_none).
        rewrite E0. fold (tree_test_dir rd sid). unfold mkdir.
        rewrite (exists_path_none _ (tree_test_dir rd sid))
          by (try done; by rewrite lookup_insert_ne by path_ne).
        unfold parent_ready. simpl. by rewrite lookup_insert_eq.
      + rewrite lookup_insert_ne by path_ne. by rewrite lookup_insert_eq.
      + by rewrite lookup_insert_eq.
      + by rewrite !lookup_insert_ne by path_ne.
      + by rewrite !lookup_insert_ne by path_ne.
    - destruct (ensure_child_ok "tree_selection" (series_dir rd sid) fs)
        as (fs1 & E1 & Ht1 & Hfs1); [done|done|].
      exists fs1. split; [done|]. split; [|split; [done|]].
      + destruct Hfs1 as [->| ->]; [done|]. by rewrite lookup_insert_ne by path_ne.
      + destruct Hfs1 as [->| ->]; [done|]. by rewrite !lookup_insert_ne by path_ne. }
  unfold write_tree_selection_result, and_then. rewrite E1.
  assert (write_text (retcode_file rd sid) "0" fs1
          = Ok (<[retcode_file rd sid := File "0"]> fs1)) as ->.
  { unfold write_text, parent_ready. simpl. rewrite Htd1.
    fold (retcode_file rd sid). rewrite Hr1.
    by destruct (fs !! retcode_file rd sid) as [[]|]. }
  set (fs2 := <[retcode_file rd sid := File "0"]> fs1).
  assert (write_text (desc_file rd sid) comment fs2
          = Ok (<[desc_file rd sid := File comment]> fs2)) as ->.
  { unfold write_text, parent_ready. simpl.
    unfold fs2 at 1. rewrite lookup_insert_ne by path_ne. rewrite Htd1.
    fold (desc_file rd sid). unfold fs2 at 1. rewrite lookup_insert_ne by path_ne.
    rewrite Hd1. by destruct (fs !! desc_file rd sid) as [[]|]. }
  set (fs3 := <[desc_file rd sid := File comment]> fs2).
  destruct (exists_path fs3 (done_file rd sid)) eqn:Ee; [by exists fs3|].
  apply exists_path_false in Ee as [_ Ee].
  destruct (ensure_patch_dirs_ok rd sid patches fs3) as (fs4 & E4 & Hsd4 & Hdone4).
  { unfold fs3, fs2. by rewrite !lookup_insert_ne by path_ne. }
  { done. }
  rewrite E4. unfold mknod.
  rewrite (exists_path_none fs4 (done_file rd sid)) by done.
  unfold parent_ready. simpl. fold (series_dir rd sid). rewrite Hsd4. by eexists.
Qed.

Lemma write_tree_selection_result_returns_witness :
  ∃ fs', write_tree_selection_result ["results"] 42 sample_patches sample_comment
           tested_disk = Ok fs'.
Proof.
  apply (write_tree_selection_result_returns ["results"] 42 sample_patches
           sample_comment tested_disk).
  - reflexivity.
  - right. split; [vm_compute; reflexivity|left; vm_compute; reflexivity].
  - vm_compute. discriminate.
  - vm_compute. discriminate.
Defined.
End TreeSelectionProps.
